(** * pinku-batched: the duotone pixel transform and the batch pipeline

    A shallow embedding of [src/pinku-batched.tsx] (the two page variants in
    the repository carry the same logic): the module-level lookup tables
    [rLUT], [gLUT], [bLUT], the in-place pixel loop [filtering], the
    asynchronous batch run [handleConvert], and the other handlers of the
    page together with the conditions under which it renders its buttons,
    its progress bar and its results.

    JavaScript numbers are IEEE-754 binary64 values; they are modelled by
    Rocq's primitive [float], whose operations are the same binary64
    operations with round-to-nearest-even.  Typed-array elements, loop
    counters and item counts are integers and are kept in [Z] or [nat]; they
    become [float]s where the source does arithmetic on them. *)

From stdpp Require Import base list strings.
From Stdlib Require Import ZArith QArith Qround Floats Uint63 Lia Ascii.
From Stdlib Require Import DecimalString DecimalPos DecimalZ.

Set Warnings "-inexact-float,-clear-no-such-hyp".
Open Scope Z_scope.

(** ** JavaScript numbers *)

Module JS.

(** The Number holding a non-negative integer below [2^63] (array elements,
    indices, counts); exact below [2^53]. *)
Definition num (z : Z) : float := PrimFloat.of_uint63 (Uint63.of_Z z).

(** The exact value of a finite binary64 number as a fraction [n / d],
    [d] a power of two; [None] for NaN and the infinities. *)
Definition sf_fraction (x : spec_float) : option (Z * Z) :=
  match x with
  | S754_zero _ => Some (0, 1)
  | S754_finite s m e =>
      let n := if s then Z.neg m else Z.pos m in
      match e with
      | Z.neg p => Some (n, Z.pos (2 ^ p))
      | _ => Some (n * 2 ^ e, 1)
      end
  | S754_infinity _ | S754_nan => None
  end.

Definition fraction (x : float) : option (Z * Z) := sf_fraction (Prim2SF x).

(** [Math.round]: the integer closest to [x], ties towards +infinity.  The
    result is an integral Number; it is returned as the integer it denotes
    ([-0] and [+0] both as [0], they index the same element), [None] when
    [x] is NaN or infinite. *)
Definition Math_round (x : float) : option Z :=
  match fraction x with
  | Some (n, d) => Some ((2 * n + d) / (2 * d))
  | None => None
  end.

(** [ToUint8Clamp], the conversion applied by a store into a
    [Uint8ClampedArray]: NaN gives 0, the value is clamped to [0, 255] and
    rounded to the nearest integer, ties to even. *)
Definition ToUint8Clamp (x : float) : Z :=
  match fraction x with
  | None => if PrimFloat.ltb 0 x then 255 else 0
  | Some (n, d) =>
      if n <=? 0 then 0
      else if 255 * d <=? n then 255
      else
        let f := n / d in
        match 2 * (n - f * d) ?= d with
        | Lt => f
        | Gt => f + 1
        | Eq => if Z.even f then f else f + 1
        end
  end.

(** A value read from an array: [undefined] is [None]. *)
Definition value := option Z.

(** [ToNumber] of a read value; [undefined] becomes NaN. *)
Definition to_number (v : value) : float :=
  match v with
  | Some z => num z
  | None => nan
  end.

(** [arr[i]] for a natural index. *)
Definition get (arr : list Z) (i : nat) : value := arr !! i.

(** [arr[k]] where [k] is the result of [Math.round]: [undefined] unless
    [k] is an integer index inside the array. *)
Definition get_at (arr : list Z) (k : option Z) : value :=
  match k with
  | Some z => if 0 <=? z then arr !! Z.to_nat z else None
  | None => None
  end.

(** The element stored by [arr[i] = v] into a [Uint8ClampedArray] when [v]
    was read from a typed array: an integer is clamped, [undefined] is NaN
    and stores 0. *)
Definition u8c_of_value (v : value) : Z :=
  match v with
  | Some z => Z.max 0 (Z.min 255 z)
  | None => 0
  end.

(** [arr[i] = v] on a typed array; a store outside the array is ignored. *)
Definition put (arr : list Z) (i : nat) (z : Z) : list Z := <[i := z]> arr.

(** [for (let i = start; i < stop; i += stride) body], with the loop state
    threaded through; [fuel] bounds the number of iterations. *)
Fixpoint for_loop {S : Type} (fuel : nat) (i stop stride : nat)
    (body : nat -> S -> S) (s : S) : S :=
  match fuel with
  | O => s
  | Datatypes.S fuel' =>
      if (i <? stop)%nat
      then for_loop fuel' (i + stride) stop stride body (body i s)
      else s
  end.

End JS.

Import JS.

(** ** The colour lookup tables *)

Definition COLOR_A : list Z := [22; 80; 39].
Definition COLOR_B : list Z := [249; 159; 210].

(** One table entry before it is stored: [a * invLuminance + b * luminance]. *)
Definition lut_mix (a b : float) (i : nat) : float :=
  let luminance := (num (Z.of_nat i) / 255.0)%float in
  let invLuminance := (1.0 - luminance)%float in
  ((a * invLuminance) + (b * luminance))%float.

(** The body of the table loop: the three stores of iteration [i]. *)
Definition lut_body (i : nat) (t : list Z * list Z * list Z)
    : list Z * list Z * list Z :=
  let '(r, g, b) := t in
  let a_ c := to_number (get COLOR_A c) in
  let b_ c := to_number (get COLOR_B c) in
  (put r i (ToUint8Clamp (lut_mix (a_ 0%nat) (b_ 0%nat) i)),
   put g i (ToUint8Clamp (lut_mix (a_ 1%nat) (b_ 1%nat) i)),
   put b i (ToUint8Clamp (lut_mix (a_ 2%nat) (b_ 2%nat) i))).

(** [new Uint8ClampedArray(256)]: 256 zeros. *)
Definition new_table : list Z := replicate 256 0.

Definition LUTs : list Z * list Z * list Z :=
  for_loop 256 0 256 1 lut_body (new_table, new_table, new_table).

Definition rLUT : list Z := LUTs.1.1.
Definition gLUT : list Z := LUTs.1.2.
Definition bLUT : list Z := LUTs.2.

(** ** The per-pixel transform *)

Record ImageData := { width : nat; height : nat; data : list Z }.

(** The weighted sum of one pixel, as the source writes it. *)
Definition luminance_sum (r g b : float) : float :=
  ((r * 0.2126) + (g * 0.7152) + (b * 0.0722))%float.

(** One iteration of the pixel loop at buffer offset [i]. *)
Definition filter_body (i : nat) (d : list Z) : list Z :=
  let r := to_number (get d i) in
  let g := to_number (get d (i + 1)) in
  let b := to_number (get d (i + 2)) in
  let luminanceInt := Math_round (luminance_sum r g b) in
  let d := put d i (u8c_of_value (get_at rLUT luminanceInt)) in
  let d := put d (i + 1) (u8c_of_value (get_at gLUT luminanceInt)) in
  put d (i + 2) (u8c_of_value (get_at bLUT luminanceInt)).

Definition filter_data (d : list Z) : list Z :=
  for_loop (length d) 0 (length d) 4 filter_body d.

Definition filtering (imageData : ImageData) : ImageData :=
  {| width := width imageData;
     height := height imageData;
     data := filter_data (data imageData) |}.

(** ** The batch run *)

(** A [File] as the run sees it: its name; the payload is opaque and is
    interpreted by the browser only. *)
Record File := { file_name : string; file_bytes : list Z }.

Record ProcessedImage :=
  { url : string; name : string; originalName : string }.

(** What the browser does with one file once its image element is given the
    object URL: [image.onerror] fires, or [image.onload] fires and the canvas
    yields the decoded pixels; [ctx] tells whether [canvas.getContext("2d")]
    returned a context or [null]. *)
Inductive Loaded :=
| LoadError
| LoadOk (imageData : ImageData) (ctx : bool).

Inductive promise (A : Type) :=
| Pending
| Fulfilled (v : A)
| Rejected.
Arguments Pending {A}.
Arguments Fulfilled {A} v.
Arguments Rejected {A}.

(** [Promise.all]: rejected as soon as one input is rejected, fulfilled with
    the values in input order once every input is fulfilled. *)
Fixpoint Promise_all {A : Type} (ps : list (promise A)) : promise (list A) :=
  match ps with
  | [] => Fulfilled []
  | p :: ps' =>
      match p, Promise_all ps' with
      | Rejected, _ | _, Rejected => Rejected
      | Pending, _ | _, Pending => Pending
      | Fulfilled v, Fulfilled vs => Fulfilled (v :: vs)
      end
  end.

(** The component state held by React. *)
Record Page :=
  { files : list File;
    processedImages : list ProcessedImage;
    isProcessing : bool;
    processingProgress : option Z }.

(** The calls a run makes that are visible outside it. *)
Inductive Event :=
| SetIsProcessing (b : bool)
| SetProcessingProgress (p : option Z)
| SetProcessedImages (l : list ProcessedImage)
| RevokeObjectURL (k : nat)
| ConsoleError.

(** One invocation of [handleConvert]: the page, the captured [files], the
    closure variable [processedCount], the item promises, whether the
    invocation itself has returned, and the calls made so far. *)
Record Run :=
  { page : Page;
    input : list File;
    processedCount : nat;
    processingPromises : list (promise (option ProcessedImage));
    returned : bool;
    trace : list Event }.

Section Pipeline.

(** The browser: decoding of a file, and [canvas.toDataURL('image/png')] of
    the canvas holding the filtered pixels. *)
Variable load : File -> Loaded.
Variable toDataURL : ImageData -> string.

Definition with_progress (p : Page) (v : option Z) : Page :=
  {| files := files p; processedImages := processedImages p;
     isProcessing := isProcessing p; processingProgress := v |}.

(** [handleConvert] up to its [await]: the empty-list guard, the three
    state resets, and the synchronous prefix of every item, which leaves
    one pending promise per file. *)
Definition handleConvert (p : Page) : Run :=
  match files p with
  | [] =>
      {| page := p; input := []; processedCount := 0;
         processingPromises := []; returned := true; trace := [] |}
  | _ :: _ =>
      {| page := {| files := files p; processedImages := [];
                    isProcessing := true; processingProgress := Some 0 |};
         input := files p;
         processedCount := 0;
         processingPromises := (fun _ => Pending) <$> files p;
         returned := false;
         trace := [SetIsProcessing true; SetProcessingProgress (Some 0);
                   SetProcessedImages []] |}
  end.

(** The rest of item [k] of the [files.map] callback, run when the load or
    error event of its image fires. *)
Definition item (k : nat) (r : Run) : Run :=
  match processingPromises r !! k, input r !! k with
  | Some Pending, Some file =>
      match load file with
      | LoadError =>
          {| page := page r; input := input r;
             processedCount := processedCount r;
             processingPromises := <[k := Rejected]> (processingPromises r);
             returned := returned r;
             trace := trace r ++ [RevokeObjectURL k] |}
      | LoadOk imageData false =>
          {| page := page r; input := input r;
             processedCount := processedCount r;
             processingPromises :=
               <[k := Fulfilled None]> (processingPromises r);
             returned := returned r;
             trace := trace r ++ [RevokeObjectURL k] |}
      | LoadOk imageData true =>
          let filterResult := filtering imageData in
          let processedCount' := S (processedCount r) in
          let progress :=
            Math_round ((num (Z.of_nat processedCount')
                         / num (Z.of_nat (length (input r)))) * 100)%float in
          let result :=
            {| url := toDataURL filterResult;
               name := "pinku_" +:+ file_name file;
               originalName := file_name file |} in
          {| page := with_progress (page r) progress; input := input r;
             processedCount := processedCount';
             processingPromises :=
               <[k := Fulfilled (Some result)]> (processingPromises r);
             returned := returned r;
             trace := trace r ++ [SetProcessingProgress progress;
                                  RevokeObjectURL k] |}
      end
  | _, _ => r
  end.

(** [handleConvert] after its [await Promise.all(processingPromises)]: the
    [try] block publishes the non-null results, the [catch] block logs, the
    [finally] block clears the processing flag. *)
Definition resume (r : Run) : Run :=
  if returned r then r
  else
    match Promise_all (processingPromises r) with
    | Pending => r
    | Fulfilled results =>
        let validResults := omap id results in
        {| page := {| files := files (page r);
                      processedImages := validResults;
                      isProcessing := false;
                      processingProgress := processingProgress (page r) |};
           input := input r; processedCount := processedCount r;
           processingPromises := processingPromises r;
           returned := true;
           trace := trace r ++ [SetProcessedImages validResults;
                                SetIsProcessing false] |}
    | Rejected =>
        {| page := {| files := files (page r);
                      processedImages := processedImages (page r);
                      isProcessing := false;
                      processingProgress := processingProgress (page r) |};
           input := input r; processedCount := processedCount r;
           processingPromises := processingPromises r;
           returned := true;
           trace := trace r ++ [ConsoleError; SetIsProcessing false] |}
    end.

(** One event of the run: item [k] finishes, then the join is examined. *)
Definition step (r : Run) (k : nat) : Run := resume (item k r).

(** A batch run: [handleConvert] on page [p], then the items finishing in
    the order [order]. *)
Definition run (p : Page) (order : list nat) : Run :=
  foldl step (handleConvert p) order.

End Pipeline.

(** ** Notions used to state the pixel and table properties *)

(** The 256 values of a byte. *)
Definition byte_values : list Z := Z.of_nat <$> seq 0 256.

(** The value of a finite number in units of [2^-1074]. *)
Definition sf_scaled (x : spec_float) : Z :=
  match x with
  | S754_finite s m e => (if s then Z.neg m else Z.pos m) * 2 ^ (e + 1074)
  | _ => 0
  end.

(** [s] lies in the cell of the integer-valued [k]: [k - 0.5 <= s < k + 0.5]. *)
Definition cell (k s : float) : bool :=
  (k - 0.5 <=? s)%float && (s <? k + 0.5)%float.

(** The bounds of the cell of the byte [K] are exactly [K - 1/2] and
    [K + 1/2]. *)
Definition cell_bounds_ok (K : Z) : bool :=
  match fraction (num K - 0.5), fraction (num K + 0.5) with
  | Some (nl, dl), Some (nh, dh) =>
      (2 * nl =? (2 * K - 1) * dl) && (2 * nh =? (2 * K + 1) * dh)
  | _, _ => false
  end.

(** The binary64 sum [s] of a pixel whose exact weighted sum is [w / 10000]
    lies in the cell of the integer nearest to [w / 10000] (of the lower of
    the two nearest when [w / 10000] is half-way between them). *)
Definition nearest_ok (w : int) (s : float) : bool :=
  let k := ((w + 5000) / 10000)%uint63 in
  cell (of_uint63 k) s
  || ((w + 5000 =? 10000 * k)%uint63 && cell (of_uint63 (k - 1)%uint63) s).

(** [nearest_ok] on every pixel with channels in [bs]; the products of a
    channel are computed once and shared between the pixels. *)
Definition nearest_search (bs : list int) : bool :=
  let tb := (fun b => ((of_uint63 b * 0.0722)%float, (722 * b)%uint63)) <$> bs in
  forallb (fun r =>
    let x := (of_uint63 r * 0.2126)%float in
    let wr := (2126 * r)%uint63 in
    forallb (fun g =>
      let y := (x + of_uint63 g * 0.7152)%float in
      let wg := (wr + 7152 * g)%uint63 in
      forallb (fun t => nearest_ok (wg + t.2)%uint63 (y + t.1)%float) tb)
      bs) bs.

(** The luminance index the loop computes for the pixel at offset [q]. *)
Definition luminanceInt_at (d : list Z) (q : nat) : option Z :=
  Math_round (luminance_sum (to_number (get d q))
                            (to_number (get d (q + 1)%nat))
                            (to_number (get d (q + 2)%nat))).

(** The table consulted for channel offset [c] of a pixel. *)
Definition lut (c : nat) : list Z :=
  match c with
  | 0%nat => rLUT
  | 1%nat => gLUT
  | _ => bLUT
  end.

(** Following the spec's words: [luminance = round(0.2126*r + 0.7152*g +
    0.0722*b)], with the coefficient written first. *)
Definition spec_luminance (r g b : Z) : option Z :=
  Math_round ((0.2126 * num r) + (0.7152 * num g) + (0.0722 * num b))%float.

(** Following the spec's words: a table entry is
    [clamp_u8 (round (A * (1 - i/255) + B * (i/255)))], computed here in
    exact rational arithmetic, for either of the two rounding rules the spec
    allows. *)
Definition clamp_u8 (z : Z) : Z := Z.max 0 (Z.min 255 z).

Definition round_half_up (q : Q) : Z := Qfloor (q + (1 # 2))%Q.

Definition round_half_even (q : Q) : Z :=
  let f := Qfloor q in
  match (q - inject_Z f ?= (1 # 2))%Q with
  | Lt => f
  | Gt => f + 1
  | Eq => if Z.even f then f else f + 1
  end.

Definition spec_lut (round : Q -> Z) (a b : Z) (i : nat) : Z :=
  let l := (inject_Z (Z.of_nat i) / 255)%Q in
  clamp_u8 (round (inject_Z a * (1 - l) + inject_Z b * l)%Q).

Definition byte (z : Z) : Prop := 0 <= z <= 255.

(** The executable test of one table against its two anchor channels. *)
Definition entry_ok (t : list Z) (a b : Z) (i : nat) : bool :=
  match t !! i with
  | Some v =>
      (v =? spec_lut round_half_even a b i)
      && (v =? spec_lut round_half_up a b i)
      && (0 <=? v) && (v <=? 255)
  | None => false
  end.

Definition step_ok (t : list Z) (i : nat) : bool :=
  match t !! i, t !! S i with
  | Some x, Some y => x <=? y
  | _, _ => false
  end.

Definition table_ok (t : list Z) (a b : Z) : bool :=
  (length t =? 256)%nat
  && forallb (entry_ok t a b) (seq 0 256)
  && forallb (step_ok t) (seq 0 255)
  && match t !! 0%nat, t !! 255%nat with
     | Some x, Some y => (x =? a) && (y =? b)
     | _, _ => false
     end
  && (a <? b).

(** [x] lies strictly inside the cell of [k]: [k - 0.5 < x < k + 0.5]. *)
Definition strict_cell (k x : float) : bool :=
  (k - 0.5 <? x)%float && (x <? k + 0.5)%float.

(** The integer nearest to the exact interpolation
    [(a * (255 - i) + b * i) / 255]; the interpolation is never half-way
    between two integers. *)
Definition nearest_mix (a b i : Z) : Z :=
  (2 * (a * (255 - i) + b * i) + 255) / 510.

(** The binary64 mix [x] of the anchors [a], [b] at index [i] lies strictly
    inside the cell of [nearest_mix a b i]. *)
Definition mix_ok (a b i : int) (x : float) : bool :=
  let v := (a * (255 - i) + b * i)%uint63 in
  strict_cell (of_uint63 ((2 * v + 255) / 510)%uint63) x.

(** [mix_ok] for all anchors and indices in [bs]; the two weights of an
    index are computed once. *)
Definition mix_search (bs : list int) : bool :=
  let ti :=
    (fun i =>
       let luminance := (of_uint63 i / 255.0)%float in
       (i, (1.0 - luminance)%float, luminance)) <$> bs in
  forallb (fun a =>
    let af := of_uint63 a in
    forallb (fun b =>
      let bf := of_uint63 b in
      forallb (fun t => mix_ok a b t.1.1 ((af * t.1.2) + (bf * t.2))%float)
              ti) bs) bs.

(** ** Notions used to state the batch properties *)

(** The result a run has delivered: the list of its last
    [setProcessedImages] call, empty when it made none. *)
Fixpoint published_from (acc : list ProcessedImage) (t : list Event)
    : list ProcessedImage :=
  match t with
  | [] => acc
  | SetProcessedImages l :: t' => published_from l t'
  | _ :: t' => published_from acc t'
  end.

Definition published (r : Run) : list ProcessedImage :=
  published_from [] (trace r).

(** The item promise holds a [ProcessedImage]. *)
Definition succeeded (p : promise (option ProcessedImage)) : bool :=
  match p with
  | Fulfilled (Some _) => true
  | _ => false
  end.

(** The number of item promises that hold a [ProcessedImage]. *)
Fixpoint count_succeeded (ps : list (promise (option ProcessedImage))) : nat :=
  match ps with
  | [] => 0
  | p :: ps' => (if succeeded p then 1 else 0) + count_succeeded ps'
  end.

(** The join has been examined: a run that has not returned is still
    waiting for an item. *)
Definition Joined (r : Run) : Prop :=
  returned r = false -> Promise_all (processingPromises r) = Pending.

(** Every index of the batch occurs in the completion order. *)
Definition complete (n : nat) (order : list nat) : Prop :=
  forall k, (k < n)%nat -> k ∈ order.

Section Outcomes.

Variable load : File -> Loaded.
Variable toDataURL : ImageData -> string.

(** The [ProcessedImage] built for a file whose pixels were [imageData]. *)
Definition entry (file : File) (imageData : ImageData) : ProcessedImage :=
  {| url := toDataURL (filtering imageData);
     name := "pinku_" +:+ file_name file;
     originalName := file_name file |}.

(** What the item promise of a file settles to. *)
Definition outcome (file : File) : promise (option ProcessedImage) :=
  match load file with
  | LoadError => Rejected
  | LoadOk _ false => Fulfilled None
  | LoadOk imageData true => Fulfilled (Some (entry file imageData))
  end.

(** The entry of a file, if it yields one. *)
Definition result_of (file : File) : option ProcessedImage :=
  match load file with
  | LoadOk imageData true => Some (entry file imageData)
  | _ => None
  end.

Definition fails (file : File) : bool :=
  match load file with
  | LoadError => true
  | LoadOk _ _ => false
  end.

(** The progress value the page shows once [c] of [n] items are counted. *)
Definition progress_of (c n : nat) : option Z :=
  match c with
  | O => Some 0
  | S _ => Math_round ((num (Z.of_nat c) / num (Z.of_nat n)) * 100)%float
  end.

(** The facts that hold of a run of a non-empty batch [fs] at every moment. *)
Record Inv (fs : list File) (r : Run) : Prop :=
  { inv_input : input r = fs;
    inv_files : files (page r) = fs;
    inv_promises :
      Forall2 (fun f p => p = Pending \/ p = outcome f) fs
              (processingPromises r);
    inv_count :
      processedCount r = count_succeeded (processingPromises r);
    inv_progress :
      processingProgress (page r) = progress_of (processedCount r) (length fs);
    inv_published : published r = processedImages (page r);
    inv_running :
      returned r = false ->
      processedImages (page r) = [] /\ isProcessing (page r) = true;
    inv_returned :
      returned r = true ->
      isProcessing (page r) = false /\
      ((Rejected ∈ processingPromises r /\ processedImages (page r) = [] /\
        ConsoleError ∈ trace r) \/
       (exists results,
          Promise_all (processingPromises r) = Fulfilled results /\
          processedImages (page r) = omap id results)) }.

End Outcomes.

(** ** A concrete browser and batch for the examples *)

(** A file named "bad" fails to decode; a file named "blind" decodes but gets
    no 2d context; any other file decodes to the pixels it carries. *)
Definition demo_load (f : File) : Loaded :=
  if String.eqb (file_name f) "bad" then LoadError
  else LoadOk {| width := 1; height := 1; data := file_bytes f |}
              (negb (String.eqb (file_name f) "blind")).

Definition demo_toDataURL (img : ImageData) : string :=
  match data img with
  | 249 :: _ => "data:image/png;white"
  | _ => "data:image/png;other"
  end.

Definition good : File :=
  {| file_name := "good.png"; file_bytes := [255; 255; 255; 255] |}.
Definition bad : File := {| file_name := "bad"; file_bytes := [] |}.
Definition good2 : File :=
  {| file_name := "good2.png"; file_bytes := [0; 0; 0; 255] |}.

Definition demo_page (fs : list File) : Page :=
  {| files := fs; processedImages := []; isProcessing := false;
     processingProgress := Some 0 |}.

(** ** The other handlers of the page *)

(** [arr.filter((x, index) => keep x index)], the scan being at index [i]. *)
Fixpoint filter_from {A : Type} (keep : A -> nat -> bool) (i : nat)
    (arr : list A) : list A :=
  match arr with
  | [] => []
  | x :: arr' =>
      if keep x i then x :: filter_from keep (S i) arr'
      else filter_from keep (S i) arr'
  end.

Definition Array_filter {A : Type} (keep : A -> nat -> bool) (arr : list A)
    : list A :=
  filter_from keep 0 arr.

(** [handleRemoveFile]: [setFiles(prev => prev.filter((_, index) => index
    !== indexToRemove))]. *)
Definition handleRemoveFile (indexToRemove : nat) (p : Page) : Page :=
  {| files :=
       Array_filter (fun _ index => negb (index =? indexToRemove)%nat)
                    (files p);
     processedImages := processedImages p;
     isProcessing := isProcessing p;
     processingProgress := processingProgress p |}.

(** [fileChanged]: [e.target.files] is [null] or the selected files. *)
Definition fileChanged (target_files : option (list File)) (p : Page) : Page :=
  match target_files with
  | Some newFiles =>
      {| files := files p ++ newFiles;
         processedImages := [];
         isProcessing := isProcessing p;
         processingProgress := processingProgress p |}
  | None => p
  end.

(** [handleReset]; the processing flag is not among the states it sets. *)
Definition handleReset (p : Page) : Page :=
  {| files := [];
     processedImages := [];
     isProcessing := isProcessing p;
     processingProgress := Some 0 |}.

(** An entry of [clipboardData.items]: its [type] and what [getAsFile()]
    returns, [null] or a blob with a [type] and a content. *)
Record Blob := { blob_type : string; blob_bytes : list Z }.
Record DataTransferItem := { item_type : string; getAsFile : option Blob }.

(** [s.split(sep)] for a one-character separator. *)
Fixpoint split (sep : Ascii.ascii) (s : string) : list string :=
  match s with
  | EmptyString => [EmptyString]
  | String c s' =>
      if Ascii.eqb c sep then EmptyString :: split sep s'
      else match split sep s' with
           | h :: t => String c h :: t
           | [] => [String c EmptyString]
           end
  end.

(** A value spliced into a template literal: a missing array element reads
    [undefined]. *)
Definition spliced (v : option string) : string :=
  match v with
  | Some s => s
  | None => "undefined"
  end.

(** The decimal digits of an integral Number below [10^21], such as a clock
    reading, as a template literal splices it. *)
Definition digits (z : Z) : string := NilZero.string_of_int (Z.to_int z).

(** [new File([blob], `pasted-image-${Date.now()}.${blob.type.split('/')[1]}`)],
    [now] being what [Date.now()] returns. *)
Definition pasted_file (now : Z) (blob : Blob) : File :=
  {| file_name :=
       "pasted-image-" +:+ digits now +:+ "."
       +:+ spliced (split "/"%char (blob_type blob) !! 1%nat);
     file_bytes := blob_bytes blob |}.

(** The loop of [handlePaste] over the clipboard items from item [i] on;
    [now i] is the clock reading while item [i] is handled. *)
Fixpoint paste_loop (now : nat -> Z) (i : nat) (items : list DataTransferItem)
    (imageFiles : list File) : list File :=
  match items with
  | [] => imageFiles
  | item :: items' =>
      let imageFiles :=
        if String.prefix "image/" (item_type item)
        then match getAsFile item with
             | Some blob => imageFiles ++ [pasted_file (now i) blob]
             | None => imageFiles
             end
        else imageFiles in
      paste_loop now (S i) items' imageFiles
  end.

(** [handlePaste]; [event.clipboardData] is [null] or the list of items. *)
Definition handlePaste (clipboardData : option (list DataTransferItem))
    (now : nat -> Z) (p : Page) : Page :=
  match clipboardData with
  | None => p
  | Some items =>
      let imageFiles := paste_loop now 0 items [] in
      if (0 <? length imageFiles)%nat
      then {| files := files p ++ imageFiles;
              processedImages := [];
              isProcessing := isProcessing p;
              processingProgress := processingProgress p |}
      else p
  end.

(** What one click on a temporary anchor saves: the [href] and the
    [download] name of the anchor. *)
Record Download := { href : string; download : string }.

(** [handleDownloadSingle]. *)
Definition handleDownloadSingle (url name : string) : Download :=
  {| href := url; download := name |}.

(** [handleDownloadAll]: the timers it sets, each with its delay in
    milliseconds and the download its callback makes. *)
Definition handleDownloadAll (p : Page) : list (nat * Download) :=
  imap (fun index image =>
          ((index * 100)%nat,
           {| href := url image; download := name image |}))
       (processedImages p).

(** ** What the page renders *)

(** [disabled={files.length === 0 || isProcessing}] of the convert button. *)
Definition convert_disabled (p : Page) : bool :=
  (length (files p) =? 0)%nat || isProcessing p.

(** [files.length > 0 && ...]: the "Clear All" button. *)
Definition reset_shown (p : Page) : bool := (0 <? length (files p))%nat.

(** [(isProcessing || processedImages.length > 0) && ...]: the panel of
    progress and results. *)
Definition panel_shown (p : Page) : bool :=
  isProcessing p || (0 <? length (processedImages p))%nat.

(** [isProcessing && !processedImages.length && ...] inside the panel. *)
Definition progress_bar_shown (p : Page) : bool :=
  panel_shown p
  && (isProcessing p && (length (processedImages p) =? 0)%nat).

(** [processedImages.length > 0 && ...] inside the panel. *)
Definition results_shown (p : Page) : bool :=
  panel_shown p && (0 <? length (processedImages p))%nat.

(** [!isProcessing && ...] inside the results: the "Download All" button. *)
Definition download_all_shown (p : Page) : bool :=
  results_shown p && negb (isProcessing p).

(** ** The page with its handlers and the runs they start *)

(** The page as React holds it and every invocation of [handleConvert] so
    far, each with the variables of its closure. *)
Record App := { view : Page; calls : list Run }.

(** A run resumed on the state the page has by now. *)
Definition with_page (r : Run) (p : Page) : Run :=
  {| page := p; input := input r; processedCount := processedCount r;
     processingPromises := processingPromises r; returned := returned r;
     trace := trace r |}.

(** What can happen to the page: the user selects files, pastes, removes a
    file, clicks "Clear All" or the convert button, or the image of item
    [k] of invocation [call] fires its load or error event. *)
Inductive Action :=
| SelectFiles (target_files : option (list File))
| PasteClipboard (clipboardData : option (list DataTransferItem))
                 (now : nat -> Z)
| ClickRemove (index : nat)
| ClickReset
| ClickConvert
| ItemEvent (call k : nat).

(** The state of a freshly mounted page. *)
Definition mounted : App :=
  {| view := {| files := []; processedImages := []; isProcessing := false;
                processingProgress := Some 0 |};
     calls := [] |}.

(** Two runs agree on everything but the page. *)
Definition same_closure (r1 r2 : Run) : Prop :=
  input r1 = input r2 /\ processedCount r1 = processedCount r2 /\
  processingPromises r1 = processingPromises r2 /\
  returned r1 = returned r2 /\ trace r1 = trace r2.

Section Session.

Variable load : File -> Loaded.
Variable toDataURL : ImageData -> string.

(** One action on the page.  A button that is not rendered or is disabled
    cannot be clicked; an event of an item belongs to the invocation that
    created its image. *)
Definition act (a : App) (e : Action) : App :=
  match e with
  | SelectFiles target_files =>
      {| view := fileChanged target_files (view a); calls := calls a |}
  | PasteClipboard clipboardData now =>
      {| view := handlePaste clipboardData now (view a); calls := calls a |}
  | ClickRemove index =>
      {| view := handleRemoveFile index (view a); calls := calls a |}
  | ClickReset =>
      if reset_shown (view a)
      then {| view := handleReset (view a); calls := calls a |}
      else a
  | ClickConvert =>
      if convert_disabled (view a) then a
      else
        let r := handleConvert (view a) in
        {| view := page r; calls := calls a ++ [r] |}
  | ItemEvent call k =>
      match calls a !! call with
      | Some r =>
          let r' := step load toDataURL (with_page r (view a)) k in
          {| view := page r'; calls := <[call := r']> (calls a) |}
      | None => a
      end
  end.

(** The page after a list of actions, from its mounting. *)
Definition session (es : list Action) : App := foldl act mounted es.

End Session.

(** ** Notions used to state further pixel properties *)

(** The exact weighted sum of a pixel, in units of 1/10000. *)
Definition weighted (r g b : Z) : Z := 2126 * r + 7152 * g + 722 * b.

(** An [ImageData] as the canvas hands it out: four bytes per pixel. *)
Definition well_formed (img : ImageData) : Prop :=
  length (data img) = (4 * (width img * height img))%nat /\
  Forall byte (data img).

(** ** Notions used to state further batch properties *)

(** How often the run has revoked the object URL of item [k]. *)
Fixpoint revoked (k : nat) (t : list Event) : nat :=
  match t with
  | [] => 0
  | RevokeObjectURL j :: t' => (if (j =? k)%nat then 1 else 0) + revoked k t'
  | _ :: t' => revoked k t'
  end.

(** Among the items that have finished there is one whose file failed to
    load. *)
Definition met_failure (load : File -> Loaded) (fs : list File)
    (order : list nat) : Prop :=
  exists k f, k ∈ order /\ fs !! k = Some f /\ fails load f = true.


(** ** Notions used to state the progress properties *)

(** The binary64 progress value [x] shown for [c] of [n] items lies in the
    cell of an integer nearest to [100 * c / n] (of either of the two
    nearest when [100 * c / n] is half-way between them). *)
Definition progress_ok (c n : int) (x : float) : bool :=
  let k := ((200 * c + n) / (2 * n))%uint63 in
  cell (of_uint63 k) x
  || ((200 * c + n =? 2 * n * k)%uint63 && cell (of_uint63 (k - 1)%uint63) x).

(** [progress_ok] for every count [c <= n] and batch size [n] in [ns]. *)
Definition progress_search (ns : list int) : bool :=
  forallb (fun n =>
    let nf := of_uint63 n in
    forallb (fun c =>
      (n <? c)%uint63
      || progress_ok c n ((of_uint63 c / nf) * 100)%float) ns) ns.

(** The batch sizes covered by the search: 1 to 2048 files. *)
Definition batch_sizes : list Z := Z.of_nat <$> seq 1 2048.

(** ** Notions used to state the properties of the handlers *)

(** The files a paste creates: one for each clipboard item that is an image
    and yields a file, in clipboard order. *)
Definition pasted_images (now : nat -> Z) (items : list DataTransferItem)
    : list File :=
  omap id
    (imap (fun i item =>
             if String.prefix "image/" (item_type item)
             then pasted_file (now i) <$> getAsFile item
             else None)
          items).

(** No character of [s] is a full stop. *)
Fixpoint no_dot (s : string) : Prop :=
  match s with
  | EmptyString => True
  | String c s' => c <> "."%char /\ no_dot s'
  end.

(** The part of a pasted name after the clock reading: the second piece of
    the type of the blob. *)
Definition pasted_extension (blob : Blob) : string :=
  spliced (split "/"%char (blob_type blob) !! 1%nat).

(** ** Notions used to state the properties of the page *)

Section SessionNotions.

Variable load : File -> Loaded.
Variable toDataURL : ImageData -> string.

(** The facts that hold of the page after any list of actions. *)
Record AppInv (a : App) : Prop :=
  { ai_older :
      forall j r, calls a !! j = Some r -> returned r = false ->
        S j = length (calls a);
    ai_busy :
      isProcessing (view a) = true <->
      exists j r, calls a !! j = Some r /\ returned r = false;
    ai_quiet :
      isProcessing (view a) = true -> processedImages (view a) = [];
    ai_results :
      processedImages (view a) = [] \/
      exists j r results,
        calls a !! j = Some r /\ S j = length (calls a) /\
        returned r = true /\
        Promise_all (processingPromises r) = Fulfilled results /\
        processedImages (view a) = omap id results;
    ai_calls :
      forall j r, calls a !! j = Some r ->
        exists p order,
          files p <> [] /\ same_closure r (run load toDataURL p order) }.

End SessionNotions.

(** * Properties *)

(** ** Binary64 facts *)

Section Binary64.

Lemma digits2_pos_gt (m : positive) : Z.pos m < 2 ^ Z.pos (digits2_pos m).
Proof.
  induction m as [m IH | m IH |]; cbn [digits2_pos].
  - rewrite Pos2Z.inj_succ, Z.pow_succ_r by lia. lia.
  - rewrite Pos2Z.inj_succ, Z.pow_succ_r by lia. lia.
  - reflexivity.
Qed.

Lemma digits2_pos_ge (m : positive) :
  2 ^ (Z.pos (digits2_pos m) - 1) <= Z.pos m.
Proof.
  induction m as [m IH | m IH |]; cbn [digits2_pos].
  - rewrite Pos2Z.inj_succ.
    replace (Z.succ (Z.pos (digits2_pos m)) - 1)
      with (Z.succ (Z.pos (digits2_pos m) - 1)) by lia.
    rewrite Z.pow_succ_r by lia. lia.
  - rewrite Pos2Z.inj_succ.
    replace (Z.succ (Z.pos (digits2_pos m)) - 1)
      with (Z.succ (Z.pos (digits2_pos m) - 1)) by lia.
    rewrite Z.pow_succ_r by lia. lia.
  - reflexivity.
Qed.

(** What validity says of a finite number: the exponent is at least
    [-1074], the mantissa is below [2^53], and above the least exponent the
    mantissa has its top bit set. *)
Lemma valid_finite (s : bool) (m : positive) (e : Z) :
  valid_binary (S754_finite s m e) = true ->
  -1074 <= e /\ Z.pos m < 2 ^ 53 /\ (-1074 < e -> 2 ^ 52 <= Z.pos m).
Proof.
  cbn [SpecFloat.valid_binary]. unfold bounded, canonical_mantissa, fexp.
  intros H. apply andb_prop in H as [H _]. apply Z.eqb_eq in H.
  unfold prec, SpecFloat.emin, emax in H.
  pose proof (digits2_pos_gt m) as Hgt.
  pose proof (digits2_pos_ge m) as Hge.
  split; [lia |]. split.
  - eapply Z.lt_le_trans; [exact Hgt |]. apply Z.pow_le_mono_r; lia.
  - intros He. assert (Z.pos (digits2_pos m) = 53) as Hd by lia.
    rewrite Hd in Hge. exact Hge.
Qed.

Lemma scaled_lt_of_exp_lt (m1 m2 : positive) (e1 e2 : Z) :
  valid_binary (S754_finite false m1 e1) = true ->
  valid_binary (S754_finite false m2 e2) = true ->
  e1 < e2 ->
  Z.pos m1 * 2 ^ (e1 + 1074) < Z.pos m2 * 2 ^ (e2 + 1074).
Proof.
  intros H1 H2 He.
  destruct (valid_finite _ _ _ H1) as (He1 & Hm1 & _).
  destruct (valid_finite _ _ _ H2) as (He2 & _ & Hm2).
  specialize (Hm2 ltac:(lia)).
  assert (2 ^ (e1 + 1074 + 1) <= 2 ^ (e2 + 1074)) as Hp
    by (apply Z.pow_le_mono_r; lia).
  rewrite Z.pow_add_r in Hp by lia.
  change (2 ^ 53) with (2 * 2 ^ 52) in Hm1.
  assert (0 < 2 ^ (e1 + 1074)) as Hpos by (apply Z.pow_pos_nonneg; lia).
  generalize dependent (2 ^ (e1 + 1074)). intros a Ha Hpos.
  generalize dependent (2 ^ (e2 + 1074)). intros b Hb.
  generalize dependent (2 ^ 52). intros c Hm1 Hm2.
  change (2 ^ 1) with 2 in Hb. nia.
Qed.

(** Comparison of the magnitudes of two valid finite numbers. *)
Lemma magnitude_compare (m1 m2 : positive) (e1 e2 : Z) :
  valid_binary (S754_finite false m1 e1) = true ->
  valid_binary (S754_finite false m2 e2) = true ->
  (Z.pos m1 * 2 ^ (e1 + 1074) ?= Z.pos m2 * 2 ^ (e2 + 1074))
  = match e1 ?= e2 with
    | Lt => Lt
    | Gt => Gt
    | Eq => Pos.compare_cont Eq m1 m2
    end.
Proof.
  intros H1 H2. destruct (Z.compare_spec e1 e2) as [-> | He | He].
  - rewrite Pos.compare_cont_spec. cbn [Pos.switch_Eq].
    destruct (valid_finite _ _ _ H2) as (He2 & _).
    assert (0 < 2 ^ (e2 + 1074)) as Hpos by (apply Z.pow_pos_nonneg; lia).
    destruct (Pos.compare_spec m1 m2) as [-> | Hlt | Hgt].
    + apply Z.compare_refl.
    + apply Z.compare_lt_iff, Z.mul_lt_mono_pos_r; [exact Hpos |].
      apply Pos2Z.pos_lt_pos, Hlt.
    + apply Z.compare_gt_iff, Z.mul_lt_mono_pos_r; [exact Hpos |].
      apply Pos2Z.pos_lt_pos, Hgt.
  - apply Z.compare_lt_iff, scaled_lt_of_exp_lt; assumption.
  - apply Z.compare_gt_iff, scaled_lt_of_exp_lt; assumption.
Qed.

Lemma valid_abs (s : bool) (m : positive) (e : Z) :
  valid_binary (S754_finite s m e) = true ->
  valid_binary (S754_finite false m e) = true.
Proof. intros H. exact H. Qed.

(** On valid numbers that are not NaN or infinite, [SFcompare] is the
    comparison of the values. *)
Lemma SFcompare_scaled (x y : spec_float) :
  valid_binary x = true -> valid_binary y = true ->
  is_Some (sf_fraction x) -> is_Some (sf_fraction y) ->
  SFcompare x y = Some (sf_scaled x ?= sf_scaled y).
Proof.
  intros Hx Hy [fx Fx] [fy Fy].
  destruct x as [sx | sx | | sx mx ex]; try discriminate;
    destruct y as [sy | sy | | sy my ey]; try discriminate;
    cbn [SFcompare sf_scaled].
  - reflexivity.
  - destruct (valid_finite _ _ _ Hy) as (He & _).
    assert (0 < 2 ^ (ey + 1074)) as Hpos by (apply Z.pow_pos_nonneg; lia).
    f_equal. symmetry. destruct sy.
    + apply Z.compare_gt_iff. nia.
    + apply Z.compare_lt_iff. nia.
  - destruct (valid_finite _ _ _ Hx) as (He & _).
    assert (0 < 2 ^ (ex + 1074)) as Hpos by (apply Z.pow_pos_nonneg; lia).
    f_equal. symmetry. destruct sx.
    + apply Z.compare_lt_iff. nia.
    + apply Z.compare_gt_iff. nia.
  - destruct (valid_finite _ _ _ Hx) as (Hex & _).
    destruct (valid_finite _ _ _ Hy) as (Hey & _).
    assert (0 < 2 ^ (ex + 1074)) as Hpx by (apply Z.pow_pos_nonneg; lia).
    assert (0 < 2 ^ (ey + 1074)) as Hpy by (apply Z.pow_pos_nonneg; lia).
    pose proof (magnitude_compare mx my ex ey (valid_abs _ _ _ Hx)
                  (valid_abs _ _ _ Hy)) as Hm.
    f_equal. destruct sx, sy.
    + change (Z.neg mx) with (- Z.pos mx). change (Z.neg my) with (- Z.pos my).
      rewrite !Z.mul_opp_l, Z.compare_opp.
      rewrite (Z.compare_antisym (Z.pos mx * 2 ^ (ex + 1074))), Hm.
      destruct (ex ?= ey); reflexivity.
    + symmetry. apply Z.compare_lt_iff. nia.
    + symmetry. apply Z.compare_gt_iff. nia.
    + rewrite Hm. reflexivity.
Qed.

(** The fraction of a valid number is its scaled value over [2^1074]. *)
Lemma sf_fraction_scaled (x : spec_float) (n d : Z) :
  valid_binary x = true -> sf_fraction x = Some (n, d) ->
  0 < d /\ n * 2 ^ 1074 = sf_scaled x * d.
Proof.
  intros Hv Hf. destruct x as [s | s | | s m e]; try discriminate.
  - injection Hf as <- <-. cbn. lia.
  - destruct (valid_finite _ _ _ Hv) as (He & _).
    cbn [sf_fraction sf_scaled] in *.
    set (z := if s then Z.neg m else Z.pos m) in *.
    destruct e as [| p | p]; injection Hf as <- <-.
    + split; [lia |]. rewrite Z.pow_0_r. cbn [Z.add]. lia.
    + split; [lia |]. rewrite Z.pow_add_r by lia. lia.
    + split; [lia |]. rewrite Pos2Z.inj_pow.
      replace 1074 with ((Z.neg p + 1074) + Z.pos p) at 1 by lia.
      rewrite Z.pow_add_r by lia. lia.
Qed.

Lemma SFltb_fraction (x y : spec_float) (n1 d1 n2 d2 : Z) :
  valid_binary x = true -> valid_binary y = true ->
  sf_fraction x = Some (n1, d1) -> sf_fraction y = Some (n2, d2) ->
  SFltb x y = true -> n1 * d2 < n2 * d1.
Proof.
  intros Hx Hy Fx Fy. unfold SFltb.
  rewrite (SFcompare_scaled x y Hx Hy) by (eexists; eassumption).
  destruct (Z.compare_spec (sf_scaled x) (sf_scaled y)) as [| Hlt |];
    try discriminate.
  intros _.
  destruct (sf_fraction_scaled x n1 d1 Hx Fx) as [Hd1 E1].
  destruct (sf_fraction_scaled y n2 d2 Hy Fy) as [Hd2 E2].
  assert (0 < 2 ^ 1074) as Hp by (apply Z.pow_pos_nonneg; lia).
  generalize dependent (2 ^ 1074). intros P E1 E2 HP.
  apply (Z.mul_lt_mono_pos_r P); [exact HP |].
  replace (n1 * d2 * P) with (sf_scaled x * (d1 * d2))
    by (transitivity (n1 * P * d2); [rewrite E1 |]; ring).
  replace (n2 * d1 * P) with (sf_scaled y * (d1 * d2))
    by (transitivity (n2 * P * d1); [rewrite E2 |]; ring).
  apply Z.mul_lt_mono_pos_r; [nia | exact Hlt].
Qed.

Lemma SFleb_fraction (x y : spec_float) (n1 d1 n2 d2 : Z) :
  valid_binary x = true -> valid_binary y = true ->
  sf_fraction x = Some (n1, d1) -> sf_fraction y = Some (n2, d2) ->
  SFleb x y = true -> n1 * d2 <= n2 * d1.
Proof.
  intros Hx Hy Fx Fy. unfold SFleb.
  rewrite (SFcompare_scaled x y Hx Hy) by (eexists; eassumption).
  destruct (Z.compare_spec (sf_scaled x) (sf_scaled y)) as [Heq | Hlt |];
    try discriminate; intros _.
  all: destruct (sf_fraction_scaled x n1 d1 Hx Fx) as [Hd1 E1].
  all: destruct (sf_fraction_scaled y n2 d2 Hy Fy) as [Hd2 E2].
  all: assert (0 < 2 ^ 1074) as Hp by (apply Z.pow_pos_nonneg; lia).
  all: generalize dependent (2 ^ 1074); intros P E1 E2 HP.
  all: apply (Z.mul_le_mono_pos_r _ _ P); [exact HP |].
  all: replace (n1 * d2 * P) with (sf_scaled x * (d1 * d2))
         by (transitivity (n1 * P * d2); [rewrite E1 |]; ring).
  all: replace (n2 * d1 * P) with (sf_scaled y * (d1 * d2))
         by (transitivity (n2 * P * d1); [rewrite E2 |]; ring).
  - rewrite Heq. lia.
  - apply Z.lt_le_incl, Z.mul_lt_mono_pos_r; [nia | exact Hlt].
Qed.

End Binary64.

Lemma byte_values_spec (z : Z) : 0 <= z <= 255 -> In z byte_values.
Proof.
  intros Hz. unfold byte_values. apply list_elem_of_In, list_elem_of_fmap.
  exists (Z.to_nat z). split; [lia |].
  apply list_elem_of_In, in_seq. lia.
Qed.

(** ** Comparison of Numbers *)

Lemma ltb_fraction (x y : float) (n1 d1 n2 d2 : Z) :
  fraction x = Some (n1, d1) -> fraction y = Some (n2, d2) ->
  (x <? y)%float = true -> n1 * d2 < n2 * d1.
Proof.
  unfold fraction. rewrite FloatAxioms.ltb_spec.
  apply SFltb_fraction; apply Prim2SF_valid.
Qed.

Lemma leb_fraction (x y : float) (n1 d1 n2 d2 : Z) :
  fraction x = Some (n1, d1) -> fraction y = Some (n2, d2) ->
  (x <=? y)%float = true -> n1 * d2 <= n2 * d1.
Proof.
  unfold fraction. rewrite FloatAxioms.leb_spec.
  apply SFleb_fraction; apply Prim2SF_valid.
Qed.

Lemma fraction_pos (x : float) (n d : Z) : fraction x = Some (n, d) -> 0 < d.
Proof.
  intros H. apply (sf_fraction_scaled _ _ _ (Prim2SF_valid x) H).
Qed.

(** A Number between two finite Numbers is finite. *)
Lemma between_finite (lo hi s : float) :
  is_Some (fraction lo) -> is_Some (fraction hi) ->
  (lo <=? s)%float = true -> (s <? hi)%float = true ->
  is_Some (fraction s).
Proof.
  unfold fraction. rewrite FloatAxioms.leb_spec, FloatAxioms.ltb_spec.
  intros [fl Hl] [fh Hh].
  destruct (Prim2SF s) as [ss | ss | | ss ms es]; cbn [sf_fraction];
    try (intros; eexists; reflexivity).
  - destruct ss.
    + destruct (Prim2SF lo) as [? | ? | | ? ? ?]; try discriminate;
        cbn; discriminate.
    + intros _. destruct (Prim2SF hi) as [? | ? | | ? ? ?];
        try discriminate; cbn; discriminate.
  - destruct (Prim2SF lo) as [? | ? | | ? ? ?]; discriminate.
  - destruct es; eexists; reflexivity.
Qed.

(** A Number inside [K - 1/2, K + 1/2) rounds to [K]. *)
Lemma Math_round_between (lo hi s : float) (K nl dl nh dh : Z) :
  fraction lo = Some (nl, dl) -> 2 * nl = (2 * K - 1) * dl ->
  fraction hi = Some (nh, dh) -> 2 * nh = (2 * K + 1) * dh ->
  (lo <=? s)%float = true -> (s <? hi)%float = true ->
  Math_round s = Some K.
Proof.
  intros Fl El Fh Eh Hlo Hhi.
  destruct (between_finite lo hi s) as [[n d] Fs]; try assumption;
    try (eexists; eassumption).
  pose proof (fraction_pos _ _ _ Fl) as Hdl.
  pose proof (fraction_pos _ _ _ Fh) as Hdh.
  pose proof (fraction_pos _ _ _ Fs) as Hd.
  pose proof (leb_fraction _ _ _ _ _ _ Fl Fs Hlo) as H1.
  pose proof (ltb_fraction _ _ _ _ _ _ Fs Fh Hhi) as H2.
  unfold Math_round. rewrite Fs. f_equal.
  assert ((2 * K - 1) * d <= 2 * n) as L.
  { apply (Z.mul_le_mono_pos_r _ _ dl); [exact Hdl |].
    replace ((2 * K - 1) * d * dl) with (2 * nl * d) by (rewrite El; ring).
    lia. }
  assert (2 * n < (2 * K + 1) * d) as U.
  { apply (Z.mul_lt_mono_pos_r dh); [exact Hdh |].
    replace ((2 * K + 1) * d * dh) with (2 * nh * d) by (rewrite Eh; ring).
    lia. }
  symmetry. apply (Z.div_unique _ _ K (2 * n + d - 2 * d * K)); lia.
Qed.

Lemma cell_bounds_bytes : forallb cell_bounds_ok byte_values = true.
Proof. vm_compute. reflexivity. Qed.

Lemma Math_round_cell (K : Z) (s : float) :
  0 <= K <= 255 -> cell (num K) s = true -> Math_round s = Some K.
Proof.
  intros HK Hc. pose proof cell_bounds_bytes as H.
  rewrite forallb_forall in H. specialize (H K (byte_values_spec K HK)).
  unfold cell_bounds_ok in H.
  destruct (fraction (num K - 0.5)) as [[nl dl] |] eqn:Fl; [| discriminate].
  destruct (fraction (num K + 0.5)) as [[nh dh] |] eqn:Fh; [| discriminate].
  apply andb_prop in H as [El Eh]. apply Z.eqb_eq in El, Eh.
  unfold cell in Hc. apply andb_prop in Hc as [Hlo Hhi].
  exact (Math_round_between _ _ _ _ _ _ _ _ Fl El Fh Eh Hlo Hhi).
Qed.

(** ** The luminance index and the exact weighted sum *)

Lemma nearest_search_spec (bs : list int) (r g b : int) :
  nearest_search bs = true -> In r bs -> In g bs -> In b bs ->
  nearest_ok (2126 * r + 7152 * g + 722 * b)%uint63
             (luminance_sum (of_uint63 r) (of_uint63 g) (of_uint63 b))
  = true.
Proof.
  unfold nearest_search. cbv zeta. intros H Hr Hg Hb.
  rewrite forallb_forall in H. specialize (H r Hr). cbv beta in H.
  rewrite forallb_forall in H. specialize (H g Hg). cbv beta in H.
  rewrite forallb_forall in H.
  apply (H ((of_uint63 b * 0.0722)%float, (722 * b)%uint63)).
  apply list_elem_of_In, list_elem_of_fmap. exists b.
  split; [reflexivity |]. apply list_elem_of_In, Hb.
Qed.

Lemma nearest_search_bytes :
  nearest_search (Uint63.of_Z <$> byte_values) = true.
Proof. vm_compute. reflexivity. Qed.

Lemma to_Z_of_byte (z : Z) : 0 <= z <= 255 -> Uint63.to_Z (Uint63.of_Z z)%uint63 = z.
Proof.
  intros Hz. rewrite Uint63.of_Z_spec. apply Z.mod_small.
  change wB with 9223372036854775808. lia.
Qed.

Lemma to_Z_weighted (r g b : Z) :
  0 <= r <= 255 -> 0 <= g <= 255 -> 0 <= b <= 255 ->
  Uint63.to_Z (2126 * Uint63.of_Z r + 7152 * Uint63.of_Z g + 722 * Uint63.of_Z b)%uint63
  = 2126 * r + 7152 * g + 722 * b.
Proof.
  intros Hr Hg Hb.
  rewrite !Uint63.add_spec, !Uint63.mul_spec, !to_Z_of_byte by assumption.
  change (Uint63.to_Z 2126%uint63) with 2126. change (Uint63.to_Z 7152%uint63) with 7152.
  change (Uint63.to_Z 722%uint63) with 722. change wB with 9223372036854775808.
  rewrite (Z.mod_small (2126 * r)) by lia.
  rewrite (Z.mod_small (7152 * g)) by lia.
  rewrite (Z.mod_small (722 * b)) by lia.
  rewrite (Z.mod_small (2126 * r + 7152 * g)) by lia.
  apply Z.mod_small. lia.
Qed.

(** For 8-bit channels the luminance index is an integer nearest to the
    exact weighted sum [(2126 r + 7152 g + 722 b) / 10000]. *)
Lemma luminance_nearest (r g b : Z) :
  0 <= r <= 255 -> 0 <= g <= 255 -> 0 <= b <= 255 ->
  exists k,
    Math_round (luminance_sum (num r) (num g) (num b)) = Some k /\
    Z.abs (10000 * k - (2126 * r + 7152 * g + 722 * b)) <= 5000.
Proof.
  intros Hr Hg Hb.
  pose proof (nearest_search_spec _ (Uint63.of_Z r) (Uint63.of_Z g)
                (Uint63.of_Z b) nearest_search_bytes) as H.
  specialize (H ltac:(apply list_elem_of_In, list_elem_of_fmap_2,
                        list_elem_of_In, byte_values_spec, Hr)
                ltac:(apply list_elem_of_In, list_elem_of_fmap_2,
                        list_elem_of_In, byte_values_spec, Hg)
                ltac:(apply list_elem_of_In, list_elem_of_fmap_2,
                        list_elem_of_In, byte_values_spec, Hb)).
  fold (num r) (num g) (num b) in H.
  set (s := luminance_sum (num r) (num g) (num b)) in *.
  set (w := (2126 * Uint63.of_Z r + 7152 * Uint63.of_Z g
             + 722 * Uint63.of_Z b)%uint63) in *.
  pose proof (to_Z_weighted r g b Hr Hg Hb) as Hw. fold w in Hw.
  set (W := 2126 * r + 7152 * g + 722 * b) in *.
  assert (0 <= W <= 2550000) as HW by (unfold W; lia).
  unfold nearest_ok in H. cbv zeta in H.
  set (k := ((w + 5000) / 10000)%uint63) in *.
  assert (Uint63.to_Z (w + 5000)%uint63 = W + 5000) as Hw5.
  { rewrite Uint63.add_spec, Hw. change (Uint63.to_Z 5000%uint63) with 5000.
    apply Z.mod_small. change wB with 9223372036854775808. lia. }
  assert (Uint63.to_Z k = (W + 5000) / 10000) as Hk.
  { unfold k. rewrite Uint63.div_spec, Hw5. reflexivity. }
  set (K := (W + 5000) / 10000) in *.
  assert (0 <= K <= 255) as HK.
  { unfold K. split; [apply Z.div_pos; lia |].
    apply Z.lt_succ_r, Z.div_lt_upper_bound; lia. }
  pose proof (Z.div_mod (W + 5000) 10000 ltac:(lia)) as Hdm.
  pose proof (Z.mod_pos_bound (W + 5000) 10000 ltac:(lia)) as Hmod.
  fold K in Hdm.
  apply orb_prop in H as [H | H].
  - exists K. split; [| lia].
    apply Math_round_cell; [exact HK |].
    unfold num. rewrite <- Hk, Uint63.of_to_Z. exact H.
  - apply andb_prop in H as [He H]. apply Uint63.eqb_spec in He.
    assert (W + 5000 = 10000 * K) as HeZ.
    { rewrite <- Hw5, He, Uint63.mul_spec, Hk.
      change (Uint63.to_Z 10000%uint63) with 10000.
      apply Z.mod_small. change wB with 9223372036854775808. lia. }
    assert (Uint63.to_Z (k - 1)%uint63 = K - 1) as Hk1.
    { rewrite Uint63.sub_spec, Hk. change (Uint63.to_Z 1%uint63) with 1.
      apply Z.mod_small. change wB with 9223372036854775808. lia. }
    exists (K - 1). split; [| lia].
    apply Math_round_cell; [lia |].
    unfold num. rewrite <- Hk1, Uint63.of_to_Z. exact H.
Qed.

Lemma luminanceInt_byte (r g b : Z) :
  0 <= r <= 255 -> 0 <= g <= 255 -> 0 <= b <= 255 ->
  exists k,
    Math_round (luminance_sum (num r) (num g) (num b)) = Some k /\
    0 <= k <= 255.
Proof.
  intros Hr Hg Hb. destruct (luminance_nearest r g b Hr Hg Hb) as (k & Hk & Hn).
  exists k. split; [exact Hk | lia].
Qed.

(** ** The interpolation for arbitrary 8-bit anchors *)

(** A Number strictly between two finite Numbers is finite. *)
Lemma inside_finite (lo hi x : float) :
  is_Some (fraction lo) -> is_Some (fraction hi) ->
  (lo <? x)%float = true -> (x <? hi)%float = true ->
  is_Some (fraction x).
Proof.
  unfold fraction. rewrite !FloatAxioms.ltb_spec.
  intros [fl Hl] [fh Hh].
  destruct (Prim2SF x) as [sx | sx | | sx mx ex]; cbn [sf_fraction];
    try (intros; eexists; reflexivity).
  - destruct sx.
    + destruct (Prim2SF lo) as [? | ? | | ? ? ?]; try discriminate;
        cbn; discriminate.
    + intros _. destruct (Prim2SF hi) as [? | ? | | ? ? ?];
        try discriminate; cbn; discriminate.
  - destruct (Prim2SF lo) as [? | ? | | ? ? ?]; discriminate.
  - destruct ex; eexists; reflexivity.
Qed.

(** A Number strictly inside [(K - 1/2, K + 1/2)], [K] a byte, is stored as
    [K] by a clamped array. *)
Lemma ToUint8Clamp_cell (K : Z) (x : float) :
  0 <= K <= 255 -> strict_cell (num K) x = true -> ToUint8Clamp x = K.
Proof.
  intros HK Hc. pose proof cell_bounds_bytes as H.
  rewrite forallb_forall in H. specialize (H K (byte_values_spec K HK)).
  unfold cell_bounds_ok in H.
  destruct (fraction (num K - 0.5)) as [[nl dl] |] eqn:Fl; [| discriminate].
  destruct (fraction (num K + 0.5)) as [[nh dh] |] eqn:Fh; [| discriminate].
  apply andb_prop in H as [El Eh]. apply Z.eqb_eq in El, Eh.
  unfold strict_cell in Hc. apply andb_prop in Hc as [Hlo Hhi].
  destruct (inside_finite _ _ x ltac:(eexists; exact Fl)
              ltac:(eexists; exact Fh) Hlo Hhi) as [[n d] Fx].
  pose proof (fraction_pos _ _ _ Fl) as Hdl.
  pose proof (fraction_pos _ _ _ Fh) as Hdh.
  pose proof (fraction_pos _ _ _ Fx) as Hd.
  pose proof (ltb_fraction _ _ _ _ _ _ Fl Fx Hlo) as H1.
  pose proof (ltb_fraction _ _ _ _ _ _ Fx Fh Hhi) as H2.
  assert ((2 * K - 1) * d < 2 * n) as L.
  { apply (Z.mul_lt_mono_pos_r dl); [exact Hdl |].
    replace ((2 * K - 1) * d * dl) with (2 * nl * d) by (rewrite El; ring).
    lia. }
  assert (2 * n < (2 * K + 1) * d) as U.
  { apply (Z.mul_lt_mono_pos_r dh); [exact Hdh |].
    replace ((2 * K + 1) * d * dh) with (2 * nh * d) by (rewrite Eh; ring).
    lia. }
  assert (forall u v, u * d < v * d -> u < v) as C
    by (intros u v; apply Z.mul_lt_mono_pos_r; exact Hd).
  unfold ToUint8Clamp. rewrite Fx.
  destruct (Z.leb_spec n 0) as [Hn | Hn].
  { assert (2 * K - 1 < 0) by (apply C; lia). lia. }
  destruct (Z.leb_spec (255 * d) n) as [Hn' | Hn'].
  { assert (510 < 2 * K + 1) by (apply C; lia). lia. }
  cbv zeta.
  pose proof (Z.div_mod n d ltac:(lia)) as Hdm.
  pose proof (Z.mod_pos_bound n d Hd) as Hm.
  set (f := n / d) in *.
  replace (n - f * d) with (n mod d) by lia.
  destruct (Z.compare_spec (2 * (n mod d)) d) as [He | Hlt | Hgt].
  - assert (2 * K - 1 < 2 * f + 1) by (apply C; lia).
    assert (2 * f + 1 < 2 * K + 1) by (apply C; lia). lia.
  - assert (2 * K - 1 < 2 * f + 1) by (apply C; lia).
    assert (2 * f < 2 * K + 1) by (apply C; lia). lia.
  - assert (2 * K - 1 < 2 * f + 2) by (apply C; lia).
    assert (2 * f + 1 < 2 * K + 1) by (apply C; lia). lia.
Qed.

Lemma mix_search_spec (bs : list int) (a b i : int) :
  mix_search bs = true -> In a bs -> In b bs -> In i bs ->
  mix_ok a b i
    ((of_uint63 a * (1.0 - of_uint63 i / 255.0))
     + (of_uint63 b * (of_uint63 i / 255.0)))%float = true.
Proof.
  unfold mix_search. cbv zeta. intros H Ha Hb Hi.
  rewrite forallb_forall in H. specialize (H a Ha). cbv beta in H.
  rewrite forallb_forall in H. specialize (H b Hb). cbv beta in H.
  rewrite forallb_forall in H.
  apply (H (i, (1.0 - of_uint63 i / 255.0)%float,
            (of_uint63 i / 255.0)%float)).
  apply list_elem_of_In, list_elem_of_fmap. exists i.
  split; [reflexivity |]. apply list_elem_of_In, Hi.
Qed.

Lemma mix_search_bytes : mix_search (Uint63.of_Z <$> byte_values) = true.
Proof. vm_compute. reflexivity. Qed.

Lemma nearest_mix_byte (a b i : Z) :
  0 <= a <= 255 -> 0 <= b <= 255 -> 0 <= i <= 255 ->
  0 <= nearest_mix a b i <= 255.
Proof.
  intros Ha Hb Hi. unfold nearest_mix.
  assert (0 <= a * (255 - i) + b * i <= 65025) as Hv by nia.
  generalize dependent (a * (255 - i) + b * i). intros v Hv.
  split; [apply Z.div_pos; lia |].
  apply Z.lt_succ_r, Z.div_lt_upper_bound; lia.
Qed.

(** For 8-bit anchors the stored entry is the integer nearest to the exact
    interpolation. *)
Lemma lut_mix_nearest (a b : Z) (i : nat) :
  0 <= a <= 255 -> 0 <= b <= 255 -> (i < 256)%nat ->
  ToUint8Clamp (lut_mix (num a) (num b) i) = nearest_mix a b (Z.of_nat i).
Proof.
  intros Ha Hb Hi.
  assert (0 <= Z.of_nat i <= 255) as Hi' by lia.
  set (z := Z.of_nat i) in *.
  pose proof (mix_search_spec _ (Uint63.of_Z a) (Uint63.of_Z b)
                (Uint63.of_Z z) mix_search_bytes) as H.
  specialize (H ltac:(apply list_elem_of_In, list_elem_of_fmap_2,
                        list_elem_of_In, byte_values_spec, Ha)
                ltac:(apply list_elem_of_In, list_elem_of_fmap_2,
                        list_elem_of_In, byte_values_spec, Hb)
                ltac:(apply list_elem_of_In, list_elem_of_fmap_2,
                        list_elem_of_In, byte_values_spec, Hi')).
  fold (num a) (num b) (num z) in H.
  unfold mix_ok in H. cbv zeta in H.
  pose proof (nearest_mix_byte a b z Ha Hb Hi') as HK.
  apply ToUint8Clamp_cell; [exact HK |].
  unfold lut_mix. cbv zeta. fold z.
  replace (num (nearest_mix a b z))
    with (of_uint63 ((2 * (Uint63.of_Z a * (255 - Uint63.of_Z z)
                           + Uint63.of_Z b * Uint63.of_Z z) + 255) / 510)%uint63);
    [exact H |].
  unfold num. f_equal. apply Uint63.to_Z_inj.
  assert (0 <= a * (255 - z) + b * z <= 65025) as Hv by nia.
  assert (0 <= a * (255 - z) <= 65025) as Hv1 by nia.
  assert (0 <= b * z <= 65025) as Hv2 by nia.
  rewrite Uint63.div_spec, Uint63.add_spec, Uint63.mul_spec, Uint63.add_spec,
    !Uint63.mul_spec, Uint63.sub_spec, !to_Z_of_byte by assumption.
  change (Uint63.to_Z 255%uint63) with 255.
  change (Uint63.to_Z 510%uint63) with 510.
  change (Uint63.to_Z 2%uint63) with 2.
  change wB with 9223372036854775808.
  rewrite (Z.mod_small (255 - z)) by lia.
  rewrite (Z.mod_small (a * (255 - z))) by lia.
  rewrite (Z.mod_small (b * z)) by lia.
  rewrite (Z.mod_small (a * (255 - z) + b * z)) by lia.
  rewrite (Z.mod_small (2 * (a * (255 - z) + b * z))) by lia.
  rewrite (Z.mod_small (2 * (a * (255 - z) + b * z) + 255)) by lia.
  reflexivity.
Qed.

(** The interpolation of the spec is the fraction
    [(a * (255 - i) + b * i) / 255]. *)
Lemma spec_mix_value (a b i : Z) :
  (inject_Z a * (1 - inject_Z i / 255) + inject_Z b * (inject_Z i / 255)
   == (a * (255 - i) + b * i) # 255)%Q.
Proof.
  rewrite (Qmake_Qdiv (a * (255 - i) + b * i) 255).
  rewrite inject_Z_plus, !inject_Z_mult.
  replace (255 - i)%Z with (255 + - i)%Z by lia.
  rewrite inject_Z_plus, inject_Z_opp.
  change (inject_Z 255) with 255%Q. change (inject_Z (Z.pos 255)) with 255%Q.
  field.
Qed.

Lemma spec_lut_half_up (a b : Z) (i : nat) :
  0 <= a <= 255 -> 0 <= b <= 255 -> (i < 256)%nat ->
  spec_lut round_half_up a b i = nearest_mix a b (Z.of_nat i).
Proof.
  intros Ha Hb Hi.
  pose proof (nearest_mix_byte a b (Z.of_nat i) Ha Hb ltac:(lia)) as HK.
  unfold spec_lut, round_half_up. cbv zeta.
  rewrite spec_mix_value.
  set (v := a * (255 - Z.of_nat i) + b * Z.of_nat i) in *.
  unfold nearest_mix in *. fold v in HK |- *.
  assert (Qfloor ((v # 255) + (1 # 2)) = (2 * v + 255) / 510) as ->.
  { unfold Qfloor, Qplus. cbn [Qnum Qden]. f_equal; lia. }
  unfold clamp_u8. lia.
Qed.

Lemma spec_lut_half_even (a b : Z) (i : nat) :
  0 <= a <= 255 -> 0 <= b <= 255 -> (i < 256)%nat ->
  spec_lut round_half_even a b i = nearest_mix a b (Z.of_nat i).
Proof.
  intros Ha Hb Hi.
  pose proof (nearest_mix_byte a b (Z.of_nat i) Ha Hb ltac:(lia)) as HK.
  unfold spec_lut, round_half_even. cbv zeta.
  pose proof (spec_mix_value a b (Z.of_nat i)) as Hq.
  set (q := (inject_Z a * (1 - inject_Z (Z.of_nat i) / 255)
             + inject_Z b * (inject_Z (Z.of_nat i) / 255))%Q) in *.
  set (v := a * (255 - Z.of_nat i) + b * Z.of_nat i) in *.
  unfold nearest_mix in *. fold v in HK |- *.
  assert (Qfloor q = v / 255) as -> by (rewrite Hq; reflexivity).
  pose proof (Z.div_mod v 255 ltac:(lia)) as Hdm.
  pose proof (Z.mod_pos_bound v 255 ltac:(lia)) as Hm.
  set (f := v / 255) in *.
  assert ((q - inject_Z f ?= 1 # 2)%Q = (2 * (v mod 255) ?= 255)) as ->.
  { rewrite Hq. unfold Qcompare, Qminus, Qplus, Qopp, inject_Z.
    cbn [Qnum Qden].
    replace ((v * 1 + - f * 255) * 2) with (2 * (v mod 255)) by lia.
    reflexivity. }
  assert (clamp_u8 ((2 * v + 255) / 510) = (2 * v + 255) / 510) as E
    by (unfold clamp_u8; lia).
  destruct (Z.compare_spec (2 * (v mod 255)) 255) as [He | Hlt | Hgt].
  - lia.
  - replace ((2 * v + 255) / 510) with f in *; [unfold clamp_u8; lia |].
    apply (Z.div_unique _ _ f (2 * (v mod 255) + 255)); lia.
  - replace ((2 * v + 255) / 510) with (f + 1) in *; [unfold clamp_u8; lia |].
    apply (Z.div_unique _ _ (f + 1) (2 * (v mod 255) - 255)); lia.
Qed.

Lemma nearest_mix_ends (a b : Z) :
  nearest_mix a b 0 = a /\ nearest_mix a b 255 = b.
Proof.
  unfold nearest_mix. split; symmetry.
  - apply (Z.div_unique _ _ a 255); lia.
  - apply (Z.div_unique _ _ b 255); lia.
Qed.

Lemma nearest_mix_monotone (a b i j : Z) :
  0 <= i <= j -> j <= 255 ->
  (a <= b -> nearest_mix a b i <= nearest_mix a b j) /\
  (b <= a -> nearest_mix a b j <= nearest_mix a b i).
Proof.
  intros Hij Hj. unfold nearest_mix.
  split; intros Hab; apply Z.div_le_mono; try lia; nia.
Qed.

(** X1: the entry the table loop computes from any two 8-bit anchor channels is
    the rounded exact interpolation, under either rounding rule; it starts
    at [a], ends at [b], and moves monotonically from [a] to [b]. *)
Lemma lut_mix_any_anchors (a b : Z) (i j : nat) :
  0 <= a <= 255 -> 0 <= b <= 255 -> (i <= j)%nat -> (j < 256)%nat ->
  let T k := ToUint8Clamp (lut_mix (num a) (num b) k) in
  T i = spec_lut round_half_even a b i /\
  T i = spec_lut round_half_up a b i /\
  T 0%nat = a /\ T 255%nat = b /\
  (a <= b -> T i <= T j) /\ (b <= a -> T j <= T i).
Proof.
  intros Ha Hb Hij Hj T. unfold T.
  rewrite !lut_mix_nearest by (assumption || lia).
  rewrite spec_lut_half_even, spec_lut_half_up by (assumption || lia).
  destruct (nearest_mix_ends a b) as [E0 E255].
  split; [reflexivity |]. split; [reflexivity |].
  split; [exact E0 |]. split; [exact E255 |].
  apply nearest_mix_monotone; lia.
Qed.

(** ** The progress fraction of a finished batch *)

Section Progress.

Lemma digits2_pos_iter_xO (p k : positive) :
  digits2_pos (Pos.iter xO p k) = (digits2_pos p + k)%positive.
Proof.
  induction k as [| k IH] using Pos.peano_ind.
  - cbn. lia.
  - rewrite Pos.iter_succ. cbn [digits2_pos]. rewrite IH. lia.
Qed.

Lemma digits2_pos_le (p : positive) (b : Z) :
  0 <= b -> Z.pos p < 2 ^ b -> Z.pos (digits2_pos p) <= b.
Proof.
  revert b. induction p as [p IH | p IH |]; intros b Hb Hp;
    cbn [digits2_pos].
  - assert (b <> 0) by (intros ->; cbn in Hp; lia).
    replace b with (Z.succ (b - 1)) in Hp by lia.
    rewrite Z.pow_succ_r in Hp by lia.
    specialize (IH (b - 1)). lia.
  - assert (b <> 0) by (intros ->; cbn in Hp; lia).
    replace b with (Z.succ (b - 1)) in Hp by lia.
    rewrite Z.pow_succ_r in Hp by lia.
    specialize (IH (b - 1)). lia.
  - assert (b <> 0) by (intros ->; cbn in Hp; lia). lia.
Qed.

(** Rounding a mantissa that already has 53 bits changes nothing. *)
Lemma binary_round_aux_exact (m : positive) (e : Z) :
  Z.pos (digits2_pos m) = 53 -> -1074 <= e <= 971 ->
  binary_round_aux prec emax false (Z.pos m) e loc_Exact
  = S754_finite false m e.
Proof.
  intros Hd He.
  assert (shr_fexp prec emax (Z.pos m) e loc_Exact
          = ({| shr_m := Z.pos m; shr_r := false; shr_s := false |}, e))
    as Hshr.
  { unfold shr_fexp, fexp. cbn [Zdigits2]. rewrite Hd.
    replace (Z.max (53 + e - prec) (SpecFloat.emin prec emax) - e) with 0
      by (unfold prec, SpecFloat.emin, emax; lia).
    reflexivity. }
  unfold binary_round_aux. rewrite Hshr.
  cbn [shr_m loc_of_shr_record round_nearest_even]. rewrite Hshr.
  cbn [shr_m].
  replace (e <=? emax - prec) with true
    by (symmetry; apply Z.leb_le; unfold emax, prec; lia).
  reflexivity.
Qed.

(** A positive integer below [2^53] is a finite non-zero Number. *)
Lemma num_finite (n : Z) :
  0 < n < 9007199254740992 ->
  exists m e, Prim2SF (num n) = S754_finite false m e.
Proof.
  intros Hn. unfold num. rewrite FloatAxioms.of_uint63_spec, Uint63.of_Z_spec.
  rewrite Z.mod_small by (change wB with 9223372036854775808; lia).
  destruct n as [| p | p]; try lia.
  cbn [binary_normalize]. unfold binary_round, shl_align, fexp.
  pose proof (digits2_pos_le p 53 ltac:(lia) ltac:(apply Hn)) as Hd.
  set (d := digits2_pos p) in *.
  replace (Z.max (Z.pos d + 0 - prec) (SpecFloat.emin prec emax) - 0)
    with (Z.pos d - 53)
    by (unfold prec, SpecFloat.emin, emax; lia).
  replace (Z.max (Z.pos d + 0 - prec) (SpecFloat.emin prec emax))
    with (Z.pos d - 53)
    by (unfold prec, SpecFloat.emin, emax; lia).
  destruct (Z.pos d - 53) as [| q | q] eqn:Hq; try lia.
  - eexists _, _. apply binary_round_aux_exact; [fold d; lia | lia].
  - eexists _, _. apply binary_round_aux_exact; [| lia].
    rewrite digits2_pos_iter_xO. fold d. lia.
Qed.

Lemma div_self (x : float) (s : bool) (m : positive) (e : Z) :
  Prim2SF x = S754_finite s m e -> (x / x)%float = 1%float.
Proof.
  intros Hx. apply Prim2SF_inj. rewrite FloatAxioms.div_spec, Hx.
  unfold SF64div, SFdiv, SFdiv_core_binary.
  rewrite !Z.sub_diag.
  change (Z.min (fexp prec emax 0) 0) with (-53).
  change (0 - -53) with 53.
  cbv iota beta.
  rewrite Z.shiftl_mul_pow2 by lia.
  assert (Z.div_eucl (Z.pos m * 2 ^ 53) (Z.pos m) = (2 ^ 53, 0)) as ->.
  { pose proof (Z.div_eucl_eq (Z.pos m * 2 ^ 53) (Z.pos m) ltac:(lia)) as E.
    pose proof (Z.mod_pos_bound (Z.pos m * 2 ^ 53) (Z.pos m) ltac:(lia)) as B.
    unfold Z.modulo in B.
    destruct (Z.div_eucl (Z.pos m * 2 ^ 53) (Z.pos m)) as [q r].
    generalize dependent (2 ^ 53). intros c E.
    assert (q = c) by nia. subst q. f_equal. lia. }
  rewrite xorb_nilpotent.
  unfold new_location, new_location_even, new_location_odd.
  destruct (Z.even (Z.pos m)); reflexivity.
Qed.

Lemma progress_complete (n : Z) :
  0 < n < 9007199254740992 ->
  Math_round ((num n / num n) * 100)%float = Some 100.
Proof.
  intros Hn. destruct (num_finite n Hn) as (m & e & Hx).
  rewrite (div_self _ _ _ _ Hx). reflexivity.
Qed.

End Progress.

(** ** Loops *)

(** A loop given enough fuel leaves by its test: more fuel changes nothing. *)
Lemma for_loop_fuel {S : Type} (fuel extra i stop stride : nat)
    (body : nat -> S -> S) (s : S) :
  (0 < stride)%nat -> (stop <= i + stride * fuel)%nat ->
  for_loop (fuel + extra) i stop stride body s
  = for_loop fuel i stop stride body s.
Proof.
  intros Hs. revert i s. induction fuel as [| fuel IH]; intros i s Hfuel.
  - cbn [Nat.add for_loop]. destruct extra as [| extra]; [reflexivity |].
    cbn [for_loop]. destruct (Nat.ltb_spec i stop); [lia | reflexivity].
  - cbn [Nat.add for_loop]. destruct (i <? stop)%nat; [| reflexivity].
    apply IH. lia.
Qed.

Lemma filter_data_fuel (d : list Z) (extra : nat) :
  for_loop (length d + extra) 0 (length d) 4 filter_body d = filter_data d.
Proof. apply for_loop_fuel; lia. Qed.

(** ** The pixel loop *)

Section Filtering.

Local Open Scope nat_scope.

Lemma filter_body_unfold (i : nat) (d : list Z) :
  filter_body i d
  = <[i + 2 := u8c_of_value (get_at bLUT (luminanceInt_at d i))]>
      (<[i + 1 := u8c_of_value (get_at gLUT (luminanceInt_at d i))]>
         (<[i := u8c_of_value (get_at rLUT (luminanceInt_at d i))]> d)).
Proof. reflexivity. Qed.

Lemma filter_body_length (i : nat) (d : list Z) :
  length (filter_body i d) = length d.
Proof. rewrite filter_body_unfold, !length_insert. reflexivity. Qed.

Lemma filter_body_other (i j : nat) (d : list Z) :
  j < i \/ i + 3 <= j -> filter_body i d !! j = d !! j.
Proof.
  intros Hj. rewrite filter_body_unfold.
  rewrite !list_lookup_insert_ne by lia. reflexivity.
Qed.

Lemma filter_body_channel (i c : nat) (d : list Z) :
  c < 3 -> i + c < length d ->
  filter_body i d !! (i + c)
  = Some (u8c_of_value (get_at (lut c) (luminanceInt_at d i))).
Proof.
  intros Hc Hlen. rewrite filter_body_unfold.
  destruct c as [| [| [| c]]]; [| | | lia]; cbn [lut].
  - rewrite !list_lookup_insert_ne by lia.
    rewrite Nat.add_0_r. apply list_lookup_insert_eq. lia.
  - rewrite list_lookup_insert_ne by lia.
    apply list_lookup_insert_eq. rewrite length_insert. lia.
  - apply list_lookup_insert_eq. rewrite !length_insert. lia.
Qed.

Lemma luminanceInt_at_ext (d d' : list Z) (q : nat) :
  d' !! q = d !! q -> d' !! (q + 1) = d !! (q + 1) ->
  d' !! (q + 2) = d !! (q + 2) ->
  luminanceInt_at d' q = luminanceInt_at d q.
Proof.
  intros H0 H1 H2. unfold luminanceInt_at, get. rewrite H0, H1, H2.
  reflexivity.
Qed.

Variable stop : nat.

Lemma loop_length (fuel i : nat) (d : list Z) :
  length (for_loop fuel i stop 4 filter_body d) = length d.
Proof.
  revert i d. induction fuel as [| fuel IH]; intros i d; cbn [for_loop].
  - reflexivity.
  - destruct (i <? stop); [| reflexivity].
    rewrite IH. apply filter_body_length.
Qed.

(** The loop never writes below its current offset. *)
Lemma loop_below (fuel i j : nat) (d : list Z) :
  j < i -> for_loop fuel i stop 4 filter_body d !! j = d !! j.
Proof.
  revert i d. induction fuel as [| fuel IH]; intros i d Hj; cbn [for_loop].
  - reflexivity.
  - destruct (i <? stop); [| reflexivity].
    rewrite IH by lia. apply filter_body_other. lia.
Qed.

(** Offsets [4k+3] are never written. *)
Lemma loop_alpha (fuel i t k : nat) (d : list Z) :
  i = 4 * t ->
  for_loop fuel i stop 4 filter_body d !! (4 * k + 3) = d !! (4 * k + 3).
Proof.
  revert i t d. induction fuel as [| fuel IH]; intros i t d Hi;
    cbn [for_loop].
  - reflexivity.
  - destruct (i <? stop); [| reflexivity].
    rewrite (IH (i + 4) (S t)) by lia.
    rewrite filter_body_unfold, !list_lookup_insert_ne by lia.
    reflexivity.
Qed.

(** Every pixel at or after the current offset receives the table values
    of its own luminance index. *)
Lemma loop_pixel (fuel i t k c : nat) (d : list Z) :
  i = 4 * t -> length d = stop -> stop <= i + 4 * fuel ->
  t <= k -> c < 3 -> 4 * k + c < stop ->
  for_loop fuel i stop 4 filter_body d !! (4 * k + c)
  = Some (u8c_of_value (get_at (lut c) (luminanceInt_at d (4 * k)))).
Proof.
  revert i t d. induction fuel as [| fuel IH];
    intros i t d Hi Hlen Hfuel Hk Hc Hin; cbn [for_loop]; [lia |].
  destruct (Nat.ltb_spec i stop) as [Hlt | Hge]; [| lia].
  destruct (decide (k = t)) as [-> | Hne].
  - rewrite loop_below by lia. subst i.
    apply filter_body_channel; [exact Hc | lia].
  - rewrite (IH (i + 4) (S t)); try lia.
    + do 3 f_equal. apply luminanceInt_at_ext;
        apply filter_body_other; lia.
    + rewrite filter_body_length. exact Hlen.
Qed.

End Filtering.

Lemma filter_data_length (d : list Z) : length (filter_data d) = length d.
Proof. apply loop_length. Qed.

Lemma filter_data_alpha (d : list Z) (k : nat) :
  filter_data d !! (4 * k + 3)%nat = d !! (4 * k + 3)%nat.
Proof. apply (loop_alpha _ _ _ 0); reflexivity. Qed.

Lemma filter_data_pixel (d : list Z) (k c : nat) :
  (c < 3)%nat -> (4 * k + c < length d)%nat ->
  filter_data d !! (4 * k + c)%nat
  = Some (u8c_of_value (get_at (lut c) (luminanceInt_at d (4 * k)))).
Proof.
  intros Hc Hin. apply (loop_pixel _ _ _ 0); try lia; reflexivity.
Qed.

(** ** The tables *)

Lemma table_ok_entry (t : list Z) (a b : Z) (i : nat) :
  table_ok t a b = true -> (i < 256)%nat ->
  exists v, t !! i = Some v /\ byte v /\
    v = spec_lut round_half_even a b i /\ v = spec_lut round_half_up a b i.
Proof.
  unfold table_ok. intros H Hi.
  apply andb_prop in H as [H _]. apply andb_prop in H as [H _].
  apply andb_prop in H as [H _]. apply andb_prop in H as [_ H].
  rewrite forallb_forall in H.
  specialize (H i ltac:(apply in_seq; lia)).
  unfold entry_ok in H. destruct (t !! i) as [v |]; [| discriminate].
  exists v. rewrite !andb_true_iff in H. unfold byte.
  destruct H as [[[H1 H2] H3] H4].
  apply Z.eqb_eq in H1, H2. apply Z.leb_le in H3, H4. auto.
Qed.

Lemma table_ok_mono (t : list Z) (a b : Z) (i j : nat) (x y : Z) :
  table_ok t a b = true -> (i <= j)%nat ->
  t !! i = Some x -> t !! j = Some y -> x <= y.
Proof.
  unfold table_ok. intros H Hij Hx Hy.
  apply andb_prop in H as [H _]. apply andb_prop in H as [H _].
  apply andb_prop in H as [H Hs].
  apply andb_prop in H as [Hl _]. apply Nat.eqb_eq in Hl.
  rewrite forallb_forall in Hs.
  assert (j < 256)%nat as Hj by (rewrite <- Hl; eapply lookup_lt_Some, Hy).
  revert y Hy Hj. induction Hij as [| j Hij IH]; intros y Hy Hj.
  - rewrite Hx in Hy. injection Hy as ->. lia.
  - specialize (Hs j ltac:(apply in_seq; lia)).
    unfold step_ok in Hs. rewrite Hy in Hs.
    destruct (t !! j) as [z |] eqn:Hz; [| discriminate].
    specialize (IH z eq_refl ltac:(lia)). apply Z.leb_le in Hs. lia.
Qed.

Lemma table_ok_length (t : list Z) (a b : Z) :
  table_ok t a b = true -> length t = 256%nat.
Proof.
  unfold table_ok. intros H. repeat (apply andb_prop in H as [H _]).
  apply Nat.eqb_eq in H. exact H.
Qed.

Lemma table_ok_lt (t : list Z) (a b : Z) : table_ok t a b = true -> a < b.
Proof.
  unfold table_ok. intros H. apply andb_prop in H as [_ H].
  apply Z.ltb_lt in H. exact H.
Qed.

Lemma table_ok_ends (t : list Z) (a b : Z) :
  table_ok t a b = true -> t !! 0%nat = Some a /\ t !! 255%nat = Some b.
Proof.
  unfold table_ok. intros H.
  apply andb_prop in H as [H _]. apply andb_prop in H as [_ H].
  destruct (t !! 0%nat) as [x |]; [| discriminate].
  destruct (t !! 255%nat) as [y |]; [| discriminate].
  apply andb_prop in H as [Hx Hy].
  apply Z.eqb_eq in Hx, Hy. subst. auto.
Qed.

Lemma rLUT_ok : table_ok rLUT 22 249 = true.
Proof. vm_compute. reflexivity. Qed.

Lemma gLUT_ok : table_ok gLUT 80 159 = true.
Proof. vm_compute. reflexivity. Qed.

Lemma bLUT_ok : table_ok bLUT 39 210 = true.
Proof. vm_compute. reflexivity. Qed.

Lemma lut_ok (c : nat) :
  (c < 3)%nat ->
  exists a b, COLOR_A !! c = Some a /\ COLOR_B !! c = Some b /\
    table_ok (lut c) a b = true.
Proof.
  intros Hc. destruct c as [| [| [| c]]]; [| | | lia]; eexists _, _;
    (split; [reflexivity |]); (split; [reflexivity |]).
  - exact rLUT_ok.
  - exact gLUT_ok.
  - exact bLUT_ok.
Qed.

(** A luminance index that is a byte always finds a byte in the table. *)
Lemma get_at_byte (c : nat) (k : Z) :
  (c < 3)%nat -> 0 <= k <= 255 ->
  exists v, get_at (lut c) (Some k) = Some v /\ lut c !! Z.to_nat k = Some v
    /\ byte v /\ u8c_of_value (Some v) = v.
Proof.
  intros Hc Hk. destruct (lut_ok c Hc) as (a & b & _ & _ & Hok).
  destruct (table_ok_entry _ _ _ (Z.to_nat k) Hok ltac:(lia))
    as (v & Hv & Hb & _).
  exists v. cbn [get_at]. replace (0 <=? k) with true by lia.
  repeat split; try assumption; try apply Hb.
  unfold u8c_of_value. unfold byte in Hb. lia.
Qed.

(** ** The pixel transform: claims *)

Lemma float_mul_comm (x y : float) : (x * y)%float = (y * x)%float.
Proof.
  apply Prim2SF_inj. rewrite !FloatAxioms.mul_spec.
  unfold SF64mul, SFmul.
  destruct (Prim2SF x) as [sx | sx | | sx mx ex],
           (Prim2SF y) as [sy | sy | | sy my ey];
    try reflexivity; rewrite (xorb_comm sx sy); try reflexivity.
  rewrite (Pos.mul_comm mx my), (Z.add_comm ex ey). reflexivity.
Qed.

Lemma spec_luminance_code (r g b : Z) :
  spec_luminance r g b = Math_round (luminance_sum (num r) (num g) (num b)).
Proof.
  unfold spec_luminance, luminance_sum.
  rewrite (float_mul_comm 0.2126), (float_mul_comm 0.7152),
    (float_mul_comm 0.0722).
  reflexivity.
Qed.

Lemma luminanceInt_at_pixel (d : list Z) (q : nat) (r g b : Z) :
  d !! q = Some r -> d !! (q + 1)%nat = Some g -> d !! (q + 2)%nat = Some b ->
  luminanceInt_at d q = spec_luminance r g b.
Proof.
  intros Hr Hg Hb. rewrite spec_luminance_code.
  unfold luminanceInt_at, get. rewrite Hr, Hg, Hb. reflexivity.
Qed.

Lemma white_luminance :
  Math_round (luminance_sum (num 255) (num 255) (num 255)) = Some 255.
Proof. vm_compute. reflexivity. Qed.

Lemma black_luminance :
  Math_round (luminance_sum (num 0) (num 0) (num 0)) = Some 0.
Proof. vm_compute. reflexivity. Qed.

(** The weighted sum is evaluated in binary64.  For the pixel (0, 14, 76) the
    exact sum is 15.5, the binary64 sum lies just below it, and the index is
    15 where exact arithmetic would round to 16. *)
Lemma luminance_tie_example :
  spec_luminance 0 14 76 = Some 15 /\
  ((2126 # 10000) * 0 + (7152 # 10000) * 14 + (722 # 10000) * 76 == 31 # 2)%Q /\
  round_half_up (31 # 2) = 16 /\ round_half_even (31 # 2) = 16.
Proof.
  split; [vm_compute; reflexivity |].
  split; [reflexivity |]. split; reflexivity.
Qed.

(** C10: for 8-bit channels the luminance index is an integer in [0, 255],
    so each of the three table reads of the pixel is inside its 256-entry
    table and never yields [undefined]. *)
Theorem luminance_index_in_bounds (r g b : Z) :
  byte r -> byte g -> byte b ->
  exists k,
    Math_round (luminance_sum (num r) (num g) (num b)) = Some k /\
    0 <= k <= 255 /\
    (Z.to_nat k < length rLUT)%nat /\
    (Z.to_nat k < length gLUT)%nat /\
    (Z.to_nat k < length bLUT)%nat /\
    is_Some (get_at rLUT (Some k)) /\
    is_Some (get_at gLUT (Some k)) /\
    is_Some (get_at bLUT (Some k)).
Proof.
  intros Hr Hg Hb.
  destruct (luminanceInt_byte r g b Hr Hg Hb) as (k & Hk & Hrange).
  exists k. split; [exact Hk |]. split; [exact Hrange |].
  destruct (get_at_byte 0 k ltac:(lia) Hrange) as (vr & Hvr & Hlr & _).
  destruct (get_at_byte 1 k ltac:(lia) Hrange) as (vg & Hvg & Hlg & _).
  destruct (get_at_byte 2 k ltac:(lia) Hrange) as (vb & Hvb & Hlb & _).
  cbn [lut] in *.
  apply lookup_lt_Some in Hlr, Hlg, Hlb.
  rewrite Hvr, Hvg, Hvb.
  repeat split; try assumption; eexists; reflexivity.
Qed.

Lemma luminance_index_in_bounds_witness :
  exists k,
    Math_round (luminance_sum (num 200) (num 30) (num 90)) = Some k /\
    0 <= k <= 255.
Proof.
  destruct (luminance_index_in_bounds 200 30 90) as (k & Hk & Hr & _);
    [unfold byte; lia .. |].
  exists k. split; assumption.
Defined.

(** C3: for every pixel [(r, g, b, a)] with 8-bit channels the loop computes
    [luminance = round(0.2126*r + 0.7152*g + 0.0722*b)], an integer in
    [0, 255] (and an integer nearest to the exact weighted sum), and replaces
    [r, g, b] by the entries of the three tables at that index; with the
    anchors (22,80,39) and (249,159,210) a white pixel becomes (249,159,210)
    and a black pixel (22,80,39). *)
Theorem filtering_maps_pixel (img : ImageData) (k : nat) (r g b a : Z) :
  data img !! (4 * k)%nat = Some r ->
  data img !! (4 * k + 1)%nat = Some g ->
  data img !! (4 * k + 2)%nat = Some b ->
  data img !! (4 * k + 3)%nat = Some a ->
  byte r -> byte g -> byte b ->
  exists luminance r' g' b',
    spec_luminance r g b = Some luminance /\
    0 <= luminance <= 255 /\
    Z.abs (10000 * luminance - (2126 * r + 7152 * g + 722 * b)) <= 5000 /\
    rLUT !! Z.to_nat luminance = Some r' /\
    gLUT !! Z.to_nat luminance = Some g' /\
    bLUT !! Z.to_nat luminance = Some b' /\
    data (filtering img) !! (4 * k)%nat = Some r' /\
    data (filtering img) !! (4 * k + 1)%nat = Some g' /\
    data (filtering img) !! (4 * k + 2)%nat = Some b' /\
    data (filtering img) !! (4 * k + 3)%nat = Some a /\
    COLOR_A = [22; 80; 39] /\ COLOR_B = [249; 159; 210] /\
    ((r, g, b) = (255, 255, 255) ->
     luminance = 255 /\ (r', g', b') = (249, 159, 210)) /\
    ((r, g, b) = (0, 0, 0) ->
     luminance = 0 /\ (r', g', b') = (22, 80, 39)).
Proof.
  intros Hr Hg Hb Ha Br Bg Bb.
  destruct (luminance_nearest r g b Br Bg Bb) as (l & Hl & Hnear).
  assert (0 <= l <= 255) as Hrange by (unfold byte in *; lia).
  destruct (get_at_byte 0 l ltac:(lia) Hrange) as (vr & Hvr & Hlr & _ & Ur).
  destruct (get_at_byte 1 l ltac:(lia) Hrange) as (vg & Hvg & Hlg & _ & Ug).
  destruct (get_at_byte 2 l ltac:(lia) Hrange) as (vb & Hvb & Hlb & _ & Ub).
  cbn [lut] in *.
  assert (luminanceInt_at (data img) (4 * k) = Some l) as Hat.
  { rewrite (luminanceInt_at_pixel _ _ r g b), spec_luminance_code;
      assumption. }
  pose proof (lookup_lt_Some _ _ _ Hb) as Hlen.
  exists l, vr, vg, vb.
  split; [rewrite spec_luminance_code; exact Hl |].
  split; [exact Hrange |]. split; [exact Hnear |].
  split; [exact Hlr |]. split; [exact Hlg |]. split; [exact Hlb |].
  cbn [filtering data].
  split.
  { rewrite <- (Nat.add_0_r (4 * k)) at 1.
    rewrite filter_data_pixel by lia.
    cbn [lut]. rewrite Hat, Hvr, Ur. reflexivity. }
  split.
  { rewrite filter_data_pixel by lia.
    cbn [lut]. rewrite Hat, Hvg, Ug. reflexivity. }
  split.
  { rewrite filter_data_pixel by lia.
    cbn [lut]. rewrite Hat, Hvb, Ub. reflexivity. }
  split; [rewrite filter_data_alpha; exact Ha |].
  split; [reflexivity |]. split; [reflexivity |].
  destruct (table_ok_ends _ _ _ rLUT_ok) as [Ar Br'].
  destruct (table_ok_ends _ _ _ gLUT_ok) as [Ag Bg'].
  destruct (table_ok_ends _ _ _ bLUT_ok) as [Ab Bb'].
  split; intros E; injection E as -> -> ->.
  - rewrite white_luminance in Hl. injection Hl as <-.
    change (Z.to_nat 255) with 255%nat in Hlr, Hlg, Hlb.
    split; [reflexivity | congruence].
  - rewrite black_luminance in Hl. injection Hl as <-.
    change (Z.to_nat 0) with 0%nat in Hlr, Hlg, Hlb.
    split; [reflexivity | congruence].
Qed.

Lemma filtering_maps_pixel_witness :
  let img := {| width := 1; height := 1; data := [255; 255; 255; 128] |} in
  data (filtering img) !! 0%nat = Some 249 /\
  data (filtering img) !! 1%nat = Some 159 /\
  data (filtering img) !! 2%nat = Some 210 /\
  data (filtering img) !! 3%nat = Some 128.
Proof.
  intros img.
  assert (byte 255) as B by (unfold byte; lia).
  destruct (filtering_maps_pixel img 0 255 255 255 128
              eq_refl eq_refl eq_refl eq_refl B B B)
    as (l & r' & g' & b' & _ & _ & _ & _ & _ & _ & H0 & H1 & H2 & H3 & _ & _
        & Hw & _).
  destruct (Hw eq_refl) as [_ E]. injection E as -> -> ->.
  auto.
Defined.

(** C5: for a buffer whose length is a multiple of 4, the alpha byte of every
    pixel is left exactly as it was. *)
Theorem filtering_preserves_alpha (img : ImageData) (k : nat) (a : Z) :
  (length (data img) mod 4 = 0)%nat ->
  data img !! (4 * k + 3)%nat = Some a ->
  data (filtering img) !! (4 * k + 3)%nat = Some a /\
  length (data (filtering img)) = length (data img).
Proof.
  intros _ Ha. cbn [filtering data].
  rewrite filter_data_alpha, filter_data_length. auto.
Qed.

Lemma filtering_preserves_alpha_witness :
  data (filtering {| width := 2; height := 1;
                     data := [10; 20; 30; 77; 200; 100; 50; 0] |})
    !! 7%nat = Some 0.
Proof.
  apply (filtering_preserves_alpha
           {| width := 2; height := 1;
              data := [10; 20; 30; 77; 200; 100; 50; 0] |} 1 0);
    reflexivity.
Defined.

(** C6: two pixels with the same computed luminance receive the same output
    RGB, whatever their own RGB channels are: each output channel of both
    pixels exists and is the same value, the entry of the channel's table at
    the common luminance. *)
Theorem filtering_depends_on_luminance
    (img1 img2 : ImageData) (k1 k2 : nat) (r1 g1 b1 r2 g2 b2 : Z) :
  data img1 !! (4 * k1)%nat = Some r1 ->
  data img1 !! (4 * k1 + 1)%nat = Some g1 ->
  data img1 !! (4 * k1 + 2)%nat = Some b1 ->
  data img2 !! (4 * k2)%nat = Some r2 ->
  data img2 !! (4 * k2 + 1)%nat = Some g2 ->
  data img2 !! (4 * k2 + 2)%nat = Some b2 ->
  spec_luminance r1 g1 b1 = spec_luminance r2 g2 b2 ->
  forall c, (c < 3)%nat ->
    exists v,
      data (filtering img1) !! (4 * k1 + c)%nat = Some v /\
      data (filtering img2) !! (4 * k2 + c)%nat = Some v /\
      v = u8c_of_value (get_at (lut c) (spec_luminance r1 g1 b1)).
Proof.
  intros Hr1 Hg1 Hb1 Hr2 Hg2 Hb2 Hlum c Hc. cbn [filtering data].
  pose proof (lookup_lt_Some _ _ _ Hb1). pose proof (lookup_lt_Some _ _ _ Hb2).
  rewrite !filter_data_pixel by lia.
  rewrite (luminanceInt_at_pixel _ _ r1 g1 b1) by assumption.
  rewrite (luminanceInt_at_pixel _ _ r2 g2 b2) by assumption.
  rewrite <- Hlum. eexists. repeat split; reflexivity.
Qed.

Lemma filtering_depends_on_luminance_witness :
  let img := {| width := 2; height := 1;
                data := [200; 30; 90; 255; 0; 98; 0; 255] |} in
  (200, 30, 90) <> (0, 98, 0) /\
  forall c, (c < 3)%nat ->
    exists v,
      data (filtering img) !! (4 * 0 + c)%nat = Some v /\
      data (filtering img) !! (4 * 1 + c)%nat = Some v /\
      v = u8c_of_value (get_at (lut c) (spec_luminance 200 30 90)).
Proof.
  split; [discriminate |].
  apply (filtering_depends_on_luminance _ _ 0 1 200 30 90 0 98 0);
    reflexivity.
Defined.

(** C4: every entry of the three tables is
    [clamp_u8 (round (A[c] * (1 - i/255) + B[c] * (i/255)))], the same value
    under round-half-even and round-half-up; entry 0 is anchor A's channel,
    entry 255 anchor B's channel, and each table is monotonic in the
    direction from A[c] to B[c]. *)
Theorem lut_interpolates (c i : nat) :
  (c < 3)%nat -> (i < 256)%nat ->
  exists a b v,
    COLOR_A !! c = Some a /\ COLOR_B !! c = Some b /\
    length (lut c) = 256%nat /\
    lut c !! i = Some v /\
    v = spec_lut round_half_even a b i /\
    v = spec_lut round_half_up a b i /\
    lut c !! 0%nat = Some a /\
    lut c !! 255%nat = Some b /\
    forall j w, (i <= j)%nat -> lut c !! j = Some w ->
      (a <= b -> v <= w) /\ (b <= a -> w <= v).
Proof.
  intros Hc Hi. destruct (lut_ok c Hc) as (a & b & HA & HB & Hok).
  destruct (table_ok_entry _ _ _ i Hok Hi) as (v & Hv & _ & He & Hu).
  destruct (table_ok_ends _ _ _ Hok) as [H0 H255].
  exists a, b, v.
  split; [exact HA |]. split; [exact HB |].
  split; [exact (table_ok_length _ _ _ Hok) |].
  split; [exact Hv |]. split; [exact He |]. split; [exact Hu |].
  split; [exact H0 |]. split; [exact H255 |].
  intros j w Hij Hw. split; intros Hab.
  - exact (table_ok_mono _ _ _ _ _ _ _ Hok Hij Hv Hw).
  - pose proof (table_ok_lt _ _ _ Hok). lia.
Qed.

Lemma lut_interpolates_witness :
  exists v, lut 1 !! 128%nat = Some v /\ v = 120 /\
    v = spec_lut round_half_even 80 159 128.
Proof.
  destruct (lut_interpolates 1 128 ltac:(lia) ltac:(lia))
    as (a & b & v & HA & HB & _ & Hv & He & _).
  injection HA as <-. injection HB as <-.
  exists v. split; [exact Hv |]. split; [| exact He].
  rewrite He. vm_compute. reflexivity.
Defined.

(** ** The batch run *)

Section PromiseAll.

Context {A : Type}.
Implicit Types (ps : list (promise A)) (vs : list A).

Lemma Promise_all_rejected ps : Promise_all ps = Rejected <-> Rejected ∈ ps.
Proof.
  induction ps as [| p ps IH]; cbn [Promise_all].
  - split; [discriminate | intros H; inversion H].
  - rewrite elem_of_cons, <- IH.
    destruct p, (Promise_all ps); naive_solver.
Qed.

Lemma Promise_all_fulfilled ps vs :
  Promise_all ps = Fulfilled vs <-> ps = Fulfilled <$> vs.
Proof.
  revert vs. induction ps as [| p ps IH]; intros vs; cbn [Promise_all].
  - destruct vs; split; intros H; try discriminate; reflexivity.
  - destruct vs as [| v vs].
    + split; [| discriminate].
      destruct p, (Promise_all ps); discriminate.
    + rewrite fmap_cons. pose proof (IH vs) as IHvs.
      destruct p as [| w |], (Promise_all ps) as [| ws |] eqn:E;
        try (split; discriminate).
      * split; [discriminate |]. intros H. injection H as _ H.
        apply IHvs in H. discriminate.
      * split; intros H.
        -- injection H as -> ->. f_equal. apply (IH vs). reflexivity.
        -- injection H as -> H. apply (IH vs) in H. congruence.
      * split; [discriminate |]. intros H. injection H as _ H.
        apply IHvs in H. discriminate.
Qed.

Lemma Promise_all_pending ps :
  Promise_all ps = Pending <-> (Rejected ∉ ps) /\ (Pending ∈ ps).
Proof.
  induction ps as [| p ps IH]; cbn [Promise_all].
  - split; [discriminate | intros [_ H]; inversion H].
  - rewrite not_elem_of_cons, elem_of_cons.
    pose proof (Promise_all_rejected ps) as HR.
    destruct p as [| w |], (Promise_all ps) as [| ws |] eqn:E;
      naive_solver.
Qed.

End PromiseAll.

Lemma published_from_app (acc : list ProcessedImage) (t1 t2 : list Event) :
  published_from acc (t1 ++ t2) = published_from (published_from acc t1) t2.
Proof.
  revert acc. induction t1 as [| e t1 IH]; intros acc; [reflexivity |].
  destruct e; cbn [app published_from]; apply IH.
Qed.

Lemma count_succeeded_insert
    (ps : list (promise (option ProcessedImage))) (k : nat)
    (q : promise (option ProcessedImage)) :
  ps !! k = Some Pending ->
  count_succeeded (<[k := q]> ps)
  = (count_succeeded ps + (if succeeded q then 1 else 0))%nat.
Proof.
  revert k. induction ps as [| p ps IH]; intros k Hk; [discriminate |].
  destruct k as [| k].
  - injection Hk as ->.
    change (<[0%nat := q]> (Pending :: ps)) with (q :: ps).
    cbn [count_succeeded succeeded]. lia.
  - change (<[S k := q]> (p :: ps)) with (p :: <[k := q]> ps).
    cbn [count_succeeded]. rewrite (IH k Hk). lia.
Qed.

Lemma count_succeeded_le (ps : list (promise (option ProcessedImage))) :
  (count_succeeded ps <= length ps)%nat.
Proof.
  induction ps as [| p ps IH]; cbn; [lia |]. destruct (succeeded p); lia.
Qed.

Lemma count_succeeded_pending (fs : list File) :
  count_succeeded ((fun _ => Pending) <$> fs) = 0%nat.
Proof. induction fs as [| f fs IH]; [reflexivity | exact IH]. Qed.

Section Batch.

Variable load : File -> Loaded.
Variable toDataURL : ImageData -> string.

Abbreviation outcome := (outcome load toDataURL).
Abbreviation Inv := (Inv load toDataURL).
Abbreviation item := (item load toDataURL).
Abbreviation step := (step load toDataURL).
Abbreviation run := (run load toDataURL).

Lemma Forall2_pending (fs : list File) :
  Forall2 (fun f p => p = Pending \/ p = outcome f) fs
          ((fun _ => Pending) <$> fs).
Proof.
  induction fs as [| f fs IH]; [constructor |].
  rewrite fmap_cons. constructor; auto.
Qed.

Lemma Inv_start (p : Page) :
  files p <> [] -> Inv (files p) (handleConvert p).
Proof.
  intros Hne. unfold handleConvert.
  destruct (files p) as [| f fs] eqn:Hfs; [congruence |].
  constructor; cbn [page input processingPromises processedCount returned
                    trace files processedImages isProcessing
                    processingProgress]; try reflexivity.
  - apply Forall2_pending.
  - symmetry. apply (count_succeeded_pending (f :: fs)).
  - intros _. auto.
  - discriminate.
Qed.

Lemma Joined_start (p : Page) : Joined (handleConvert p).
Proof.
  unfold Joined, handleConvert.
  destruct (files p) as [| f fs]; [discriminate |]. intros _.
  cbn [processingPromises]. apply Promise_all_pending. split.
  - intros H. apply list_elem_of_fmap in H as (x & Hx & _). discriminate.
  - rewrite fmap_cons. left.
Qed.

(** An item that is already settled, or does not exist, is left alone. *)
Lemma item_settled (r : Run) (k : nat) :
  processingPromises r !! k <> Some Pending -> item k r = r.
Proof.
  intros H. unfold item.
  destruct (processingPromises r !! k) as [[| |] |]; congruence.
Qed.

(** The effect of an item that is still pending. *)
Lemma item_pending (r : Run) (k : nat) (file : File) :
  processingPromises r !! k = Some Pending -> input r !! k = Some file ->
  let r' := item k r in
  input r' = input r /\ returned r' = returned r /\
  files (page r') = files (page r) /\
  processedImages (page r') = processedImages (page r) /\
  isProcessing (page r') = isProcessing (page r) /\
  processingPromises r' = <[k := outcome file]> (processingPromises r) /\
  processedCount r'
  = (processedCount r + (if succeeded (outcome file) then 1 else 0))%nat /\
  processingProgress (page r')
  = (if succeeded (outcome file)
     then progress_of (S (processedCount r)) (length (input r))
     else processingProgress (page r)) /\
  published r' = published r /\
  (ConsoleError ∈ trace r -> ConsoleError ∈ trace r').
Proof.
  intros Hk Hf. unfold item, outcome. rewrite Hk, Hf.
  destruct (load file) as [| img [|]]; cbn;
    repeat split; try reflexivity; try lia;
    try (unfold published; cbn [trace]; rewrite published_from_app;
         reflexivity);
    try (intros H; apply elem_of_app; left; exact H).
Qed.

Lemma Inv_item (fs : list File) (r : Run) (k : nat) :
  Inv fs r -> Inv fs (item k r).
Proof.
  intros I.
  destruct (processingPromises r !! k) as [q |] eqn:Hk;
    [| rewrite item_settled by congruence; exact I].
  destruct q as [| v |];
    [| rewrite item_settled by congruence; exact I ..].
  destruct (input r !! k) as [file |] eqn:Hf.
  2: { apply lookup_ge_None_1 in Hf. apply lookup_lt_Some in Hk.
       pose proof (Forall2_length _ _ _ (inv_promises _ _ _ _ I)).
       rewrite (inv_input _ _ _ _ I) in Hf. lia. }
  destruct (item_pending r k file Hk Hf)
    as (Hin & Hret & Hfiles & Himgs & Hproc & Hps & Hcnt & Hprog & Hpub & Herr).
  destruct I as [Iin Ifiles Ips Icnt Iprog Ipub Irun Iret].
  constructor.
  - congruence.
  - congruence.
  - rewrite Hps. rewrite <- (list_insert_id fs k file) by congruence.
    apply Forall2_insert; auto.
  - rewrite Hcnt, Hps, count_succeeded_insert by exact Hk. congruence.
  - rewrite Hprog, Hcnt. destruct (succeeded (outcome file)).
    + rewrite Iin. replace (processedCount r + 1)%nat
        with (S (processedCount r)) by lia. reflexivity.
    + rewrite Nat.add_0_r. exact Iprog.
  - congruence.
  - rewrite Hret, Himgs, Hproc. exact Irun.
  - rewrite Hret, Himgs, Hproc. intros Ht.
    destruct (Iret Ht) as [Hp [(HR & Himg & HE) | (results & Hall & Himg)]].
    + split; [exact Hp |]. left. split; [| auto].
      rewrite Hps. apply list_elem_of_lookup in HR as [j Hj].
      apply list_elem_of_lookup. exists j.
      rewrite list_lookup_insert_ne; [exact Hj | congruence].
    + apply Promise_all_fulfilled in Hall. rewrite Hall in Hk.
      rewrite list_lookup_fmap in Hk.
      destruct (results !! k); discriminate.
Qed.

Lemma Inv_resume (fs : list File) (r : Run) : Inv fs r -> Inv fs (resume r).
Proof.
  intros I. unfold resume.
  destruct (returned r) eqn:Hret; [exact I |].
  destruct (Promise_all (processingPromises r)) as [| results |] eqn:Hall;
    [exact I | |];
    destruct I as [Iin Ifiles Ips Icnt Iprog Ipub Irun Iret];
    destruct (Irun Hret) as [Himg Hproc].
  - constructor; cbn; auto; try discriminate.
    + unfold published. cbn [trace]. rewrite published_from_app.
      reflexivity.
    + intros _. split; [reflexivity |]. right. exists results. auto.
  - constructor; cbn; auto; try discriminate.
    + unfold published. cbn [trace]. rewrite published_from_app.
      exact Ipub.
    + intros _. split; [reflexivity |]. left.
      split; [apply Promise_all_rejected, Hall |].
      split; [exact Himg |].
      apply elem_of_app. right. left.
Qed.

Lemma Joined_resume (r : Run) : Joined (resume r).
Proof.
  unfold Joined, resume.
  destruct (returned r) eqn:Hret; [congruence |].
  destruct (Promise_all (processingPromises r)) eqn:Hall; cbn;
    congruence.
Qed.

Lemma run_snoc (p : Page) (order : list nat) (k : nat) :
  run p (order ++ [k]) = step (run p order) k.
Proof. unfold run. apply foldl_snoc. Qed.

Lemma Inv_run (p : Page) (order : list nat) :
  files p <> [] -> Inv (files p) (run p order).
Proof.
  intros Hne. induction order as [| k order IH] using rev_ind.
  - apply Inv_start, Hne.
  - rewrite run_snoc. apply Inv_resume, Inv_item, IH.
Qed.

Lemma Joined_run (p : Page) (order : list nat) : Joined (run p order).
Proof.
  destruct order as [| k order _] using rev_ind.
  - apply Joined_start.
  - rewrite run_snoc. apply Joined_resume.
Qed.

Lemma outcome_not_pending (file : File) : outcome file <> Pending.
Proof. unfold outcome. destruct (load file) as [| img [|]]; discriminate. Qed.

Lemma outcome_fails (file : File) :
  fails load file = true -> outcome file = Rejected.
Proof.
  unfold fails, outcome. destruct (load file) as [| img [|]];
    [reflexivity | discriminate ..].
Qed.

Lemma outcome_not_fails (file : File) :
  fails load file = false ->
  outcome file = Fulfilled (result_of load toDataURL file).
Proof.
  unfold fails, outcome, result_of. destruct (load file) as [| img [|]];
    [discriminate | reflexivity ..].
Qed.

Lemma resume_promises (r : Run) :
  processingPromises (resume r) = processingPromises r.
Proof.
  unfold resume. destruct (returned r); [reflexivity |].
  destruct (Promise_all (processingPromises r)); reflexivity.
Qed.

Lemma step_keeps (fs : list File) (r : Run) (k j : nat)
    (q : promise (option ProcessedImage)) :
  Inv fs r -> processingPromises r !! j = Some q -> q <> Pending ->
  processingPromises (step r k) !! j = Some q.
Proof.
  intros I Hj Hq. unfold step. rewrite resume_promises.
  destruct (processingPromises r !! k) as [[| v |] |] eqn:Hk;
    try (rewrite item_settled by congruence; exact Hj).
  destruct (input r !! k) as [file |] eqn:Hf.
  - destruct (item_pending r k file Hk Hf) as (_ & _ & _ & _ & _ & -> & _).
    rewrite list_lookup_insert_ne; [exact Hj | congruence].
  - unfold item. rewrite Hk, Hf. exact Hj.
Qed.

Lemma step_settles (fs : list File) (r : Run) (k : nat) :
  Inv fs r -> (k < length fs)%nat ->
  exists q, processingPromises (step r k) !! k = Some q /\ q <> Pending.
Proof.
  intros I Hlt.
  pose proof (Forall2_length _ _ _ (inv_promises _ _ _ _ I)) as Hlen.
  destruct (lookup_lt_is_Some_2 (processingPromises r) k ltac:(lia))
    as [q Hk].
  destruct q as [| v |].
  - destruct (lookup_lt_is_Some_2 (input r) k) as [file Hf].
    { rewrite (inv_input _ _ _ _ I). exact Hlt. }
    exists (outcome file). split; [| apply outcome_not_pending].
    unfold step. rewrite resume_promises.
    destruct (item_pending r k file Hk Hf) as (_ & _ & _ & _ & _ & -> & _).
    apply list_lookup_insert_eq. lia.
  - exists (Fulfilled v). split; [| discriminate].
    eapply step_keeps; [exact I | exact Hk | discriminate].
  - exists Rejected. split; [| discriminate].
    eapply step_keeps; [exact I | exact Hk | discriminate].
Qed.

Lemma run_settled (p : Page) (order : list nat) (k : nat) :
  files p <> [] -> k ∈ order -> (k < length (files p))%nat ->
  exists q, processingPromises (run p order) !! k = Some q /\ q <> Pending.
Proof.
  intros Hne Hin Hlt. induction order as [| j order IH] using rev_ind.
  - inversion Hin.
  - rewrite run_snoc. pose proof (Inv_run p order Hne) as I.
    apply elem_of_app in Hin as [Hin | Hin].
    + destruct (IH Hin) as (q & Hq & Hnp). exists q. split; [| exact Hnp].
      eapply step_keeps; eassumption.
    + apply list_elem_of_singleton in Hin as ->.
      eapply step_settles; eassumption.
Qed.

(** Once every item has finished, each promise holds its outcome. *)
Lemma run_promises (p : Page) (order : list nat) :
  files p <> [] -> complete (length (files p)) order ->
  processingPromises (run p order) = outcome <$> files p.
Proof.
  intros Hne Hc. pose proof (Inv_run p order Hne) as I.
  pose proof (inv_promises _ _ _ _ I) as HF.
  apply list_eq. intros k. rewrite list_lookup_fmap.
  destruct (files p !! k) as [f |] eqn:Hf; cbn.
  - destruct (run_settled p order k Hne) as (q & Hq & Hnp).
    { apply Hc. eapply lookup_lt_Some, Hf. }
    { eapply lookup_lt_Some, Hf. }
    rewrite Hq. f_equal.
    destruct (Forall2_lookup_lr _ _ _ _ _ _ HF Hf Hq) as [-> | ->];
      [congruence | reflexivity].
  - apply lookup_ge_None_2. rewrite <- (Forall2_length _ _ _ HF).
    apply lookup_ge_None_1, Hf.
Qed.

Lemma run_returned (p : Page) (order : list nat) :
  files p <> [] -> complete (length (files p)) order ->
  returned (run p order) = true.
Proof.
  intros Hne Hc. destruct (returned (run p order)) eqn:Hret; [reflexivity |].
  pose proof (Joined_run p order Hret) as HP.
  apply Promise_all_pending in HP as [_ HP].
  rewrite (run_promises p order Hne Hc) in HP.
  apply list_elem_of_fmap in HP as (f & Hf & _).
  symmetry in Hf. apply outcome_not_pending in Hf. contradiction.
Qed.

Lemma omap_id_fmap {A B : Type} (f : A -> option B) (l : list A) :
  omap id (f <$> l) = omap f l.
Proof.
  induction l as [| x l IH]; [reflexivity |].
  rewrite fmap_cons. cbn. rewrite IH. reflexivity.
Qed.

Lemma Fulfilled_fmap_inj {A : Type} (l1 l2 : list A) :
  Fulfilled <$> l1 = Fulfilled <$> l2 -> l1 = l2.
Proof.
  revert l2. induction l1 as [| x l1 IH]; intros [| y l2] H;
    try discriminate; [reflexivity |].
  rewrite !fmap_cons in H. injection H as -> H. f_equal. auto.
Qed.

(** A finished batch in which some item was rejected publishes nothing:
    the rejection of the join is caught and logged. *)
Lemma run_rejected (p : Page) (order : list nat) (f : File) :
  complete (length (files p)) order ->
  f ∈ files p -> fails load f = true ->
  processedImages (page (run p order)) = [] /\
  ConsoleError ∈ trace (run p order).
Proof.
  intros Hc Hf Hfail.
  assert (files p <> []) as Hne by (intros E; rewrite E in Hf; inversion Hf).
  pose proof (Inv_run p order Hne) as I.
  destruct (inv_returned _ _ _ _ I (run_returned p order Hne Hc))
    as [_ [(_ & Himg & HE) | (results & Hall & _)]]; [auto |].
  assert (Promise_all (processingPromises (run p order)) = Rejected) as HR.
  { apply Promise_all_rejected. rewrite (run_promises p order Hne Hc).
    apply list_elem_of_fmap. exists f. split; [| exact Hf].
    symmetry. apply outcome_fails, Hfail. }
  congruence.
Qed.

(** A finished batch without a rejected item publishes the entries of its
    files in the order of the files. *)
Lemma run_fulfilled (p : Page) (order : list nat) :
  files p <> [] -> complete (length (files p)) order ->
  (forall f, f ∈ files p -> fails load f = false) ->
  processedImages (page (run p order))
  = omap (result_of load toDataURL) (files p).
Proof.
  intros Hne Hc Hok. pose proof (Inv_run p order Hne) as I.
  pose proof (run_promises p order Hne Hc) as Hps.
  assert (outcome <$> files p
          = Fulfilled <$> (result_of load toDataURL <$> files p)) as Hout.
  { rewrite <- list_fmap_compose. apply list_fmap_ext.
    intros k f Hk. apply outcome_not_fails, Hok.
    eapply list_elem_of_lookup_2, Hk. }
  destruct (inv_returned _ _ _ _ I (run_returned p order Hne Hc))
    as [_ [(HR & _) | (results & Hall & Himg)]].
  - rewrite Hps, Hout in HR.
    apply list_elem_of_fmap in HR as (x & Hx & _). discriminate.
  - apply Promise_all_fulfilled in Hall. rewrite Hps, Hout in Hall.
    apply Fulfilled_fmap_inj in Hall. subst results.
    rewrite Himg. apply omap_id_fmap.
Qed.

End Batch.

(** ** The batch run: claims *)

Section BatchClaims.

Variable load : File -> Loaded.
Variable toDataURL : ImageData -> string.

Abbreviation run' := (run load toDataURL).

Lemma run_empty (p : Page) (order : list nat) :
  files p = [] -> run' p order = handleConvert p.
Proof.
  intros Hfs. induction order as [| k order IH] using rev_ind;
    [reflexivity |].
  rewrite run_snoc, IH. unfold step, handleConvert. rewrite Hfs.
  rewrite item_settled by (cbn; discriminate). reflexivity.
Qed.

Lemma count_succeeded_all (fs : list File) :
  (forall f, f ∈ fs -> exists img, load f = LoadOk img true) ->
  count_succeeded (outcome load toDataURL <$> fs) = length fs.
Proof.
  induction fs as [| f fs IH]; intros H; [reflexivity |].
  rewrite fmap_cons. cbn [count_succeeded length].
  rewrite IH by (intros g Hg; apply H; right; exact Hg).
  destruct (H f ltac:(left)) as [img Hf]. unfold outcome. rewrite Hf.
  reflexivity.
Qed.

Lemma run_count (p : Page) (order : list nat) :
  processedCount (run' p order)
  = count_succeeded (processingPromises (run' p order)) /\
  (processedCount (run' p order) <= length (files p))%nat.
Proof.
  destruct (files p) as [| f fs] eqn:Hfs.
  - rewrite run_empty by exact Hfs. unfold handleConvert. rewrite Hfs.
    cbn. auto.
  - assert (files p <> []) as Hne by congruence.
    pose proof (Inv_run load toDataURL p order Hne) as I.
    rewrite <- Hfs.
    pose proof (inv_count _ _ _ _ I) as Hc. split; [exact Hc |].
    rewrite Hc, (Forall2_length _ _ _ (inv_promises _ _ _ _ I)).
    apply count_succeeded_le.
Qed.

(** C7: on an empty image list the run is a no-op: the page state is left as
    it was, no call is made (in particular no progress is published), and
    the run delivers an empty result, whatever events arrive afterwards. *)
Theorem empty_batch_is_noop (p : Page) (order : list nat) :
  files p = [] ->
  page (run' p order) = p /\
  trace (run' p order) = [] /\
  published (run' p order) = [] /\
  processingPromises (run' p order) = [] /\
  returned (run' p order) = true.
Proof.
  intros Hfs. rewrite run_empty by exact Hfs.
  unfold handleConvert, published. rewrite Hfs. cbn. auto.
Qed.

(** C8: within one invocation the completed-item count starts at zero, each
    event leaves it unchanged or, when it completes an item with a result,
    increments it by exactly one, and it never exceeds the number of items
    (it is the number of items completed with a result). *)
Theorem processedCount_monotone_bounded
    (p : Page) (order : list nat) (k : nat) :
  processedCount (handleConvert p) = 0%nat /\
  processedCount (run' p (order ++ [k]))
  = (processedCount (run' p order)
     + match processingPromises (run' p order) !! k, files p !! k with
       | Some Pending, Some file =>
           if succeeded (outcome load toDataURL file) then 1 else 0
       | _, _ => 0
       end)%nat /\
  processedCount (run' p order)
  = count_succeeded (processingPromises (run' p order)) /\
  (processedCount (run' p order) <= length (files p))%nat.
Proof.
  split; [unfold handleConvert; destruct (files p); reflexivity |].
  split; [| apply run_count].
  rewrite run_snoc. unfold step.
  assert (forall r, processedCount (resume r) = processedCount r) as Hres.
  { intros r. unfold resume. destruct (returned r); [reflexivity |].
    destruct (Promise_all (processingPromises r)); reflexivity. }
  rewrite Hres.
  destruct (files p) as [| f fs] eqn:Hfs.
  - rewrite run_empty by exact Hfs. unfold handleConvert. rewrite Hfs.
    rewrite item_settled by (cbn; discriminate).
    cbn [processingPromises processedCount]. rewrite lookup_nil. lia.
  - assert (files p <> []) as Hne by congruence.
    pose proof (Inv_run load toDataURL p order Hne) as I.
    rewrite <- Hfs, <- (inv_input _ _ _ _ I).
    destruct (processingPromises (run' p order) !! k) as [[| v |] |] eqn:Hk;
      try (rewrite item_settled by congruence; lia).
    destruct (input (run' p order) !! k) as [file |] eqn:Hf.
    + destruct (item_pending load toDataURL _ k file Hk Hf)
        as (_ & _ & _ & _ & _ & _ & Hc & _).
      exact Hc.
    + unfold item. rewrite Hk, Hf. lia.
Qed.

(** C9: once every item has finished, the delivered list holds the entries
    of the files in submission order, whatever the order in which the items
    finished (it is empty when the join was rejected). *)
Theorem results_in_submission_order (p : Page) (order1 order2 : list nat) :
  complete (length (files p)) order1 ->
  complete (length (files p)) order2 ->
  published (run' p order1)
  = (if existsb (fails load) (files p) then []
     else omap (result_of load toDataURL) (files p)) /\
  published (run' p order2) = published (run' p order1) /\
  sublist (published (run' p order1))
          (omap (result_of load toDataURL) (files p)).
Proof.
  assert (forall order, complete (length (files p)) order ->
    published (run' p order)
    = (if existsb (fails load) (files p) then []
       else omap (result_of load toDataURL) (files p))) as H.
  { intros order Hc. destruct (files p) as [| f fs] eqn:Hfs.
    - rewrite run_empty by exact Hfs. unfold handleConvert, published.
      rewrite Hfs. reflexivity.
    - assert (files p <> []) as Hne by congruence. rewrite <- Hfs in *.
      rewrite (inv_published _ _ _ _ (Inv_run load toDataURL p order Hne)).
      destruct (existsb (fails load) (files p)) eqn:Hex.
      + apply existsb_exists in Hex as (g & Hg & Hfail).
        apply list_elem_of_In in Hg.
        apply (run_rejected load toDataURL p order g Hc Hg Hfail).
      + apply run_fulfilled; [exact Hne | exact Hc |].
        intros g Hg. destruct (fails load g) eqn:Hfail; [| reflexivity].
        assert (existsb (fails load) (files p) = true); [| congruence].
        apply existsb_exists. exists g. split; [| exact Hfail].
        apply list_elem_of_In, Hg. }
  intros Hc1 Hc2. rewrite (H order2 Hc2), (H order1 Hc1).
  split; [reflexivity |]. split; [reflexivity |].
  destruct (existsb (fails load) (files p)); [apply sublist_nil_l |].
  reflexivity.
Qed.

(** C2: for a non-empty list of N images that all decode, a finished run
    publishes exactly N entries, the progress value is exactly 100, and every
    entry is named "pinku_" followed by the unmodified source name (N below
    2^53; arrays are shorter than 2^32). *)
Theorem all_decodable_batch (p : Page) (order : list nat) :
  files p <> [] ->
  Z.of_nat (length (files p)) < 9007199254740992 ->
  (forall f, f ∈ files p -> exists img, load f = LoadOk img true) ->
  complete (length (files p)) order ->
  length (processedImages (page (run' p order))) = length (files p) /\
  processingProgress (page (run' p order)) = Some 100 /\
  processedCount (run' p order) = length (files p) /\
  Forall2 (fun f e => name e = "pinku_" +:+ file_name f /\
                      originalName e = file_name f)
          (files p) (processedImages (page (run' p order))).
Proof.
  intros Hne Hlen Hok Hc.
  pose proof (Inv_run load toDataURL p order Hne) as I.
  assert (processedImages (page (run' p order))
          = omap (result_of load toDataURL) (files p)) as Himg.
  { apply run_fulfilled; [exact Hne | exact Hc |].
    intros f Hf. destruct (Hok f Hf) as [img E]. unfold fails.
    rewrite E. reflexivity. }
  assert (Forall2 (fun f e => name e = "pinku_" +:+ file_name f /\
                              originalName e = file_name f)
            (files p) (omap (result_of load toDataURL) (files p))) as HF.
  { clear - Hok. induction (files p) as [| f fs IH]; [constructor |].
    destruct (Hok f ltac:(left)) as [img E].
    cbn [omap list_omap]. unfold result_of at 1. rewrite E.
    constructor; [cbn; auto |].
    apply IH. intros g Hg. apply Hok. right. exact Hg. }
  assert (processedCount (run' p order) = length (files p)) as Hcount.
  { rewrite (inv_count _ _ _ _ I), (run_promises _ _ p order Hne Hc).
    apply count_succeeded_all, Hok. }
  rewrite Himg. split; [symmetry; exact (Forall2_length _ _ _ HF) |].
  split; [| split; [exact Hcount | exact HF]].
  rewrite (inv_progress _ _ _ _ I), Hcount. unfold progress_of.
  destruct (length (files p)) as [| n] eqn:Hn.
  - destruct (files p); [congruence | discriminate].
  - apply progress_complete. lia.
Qed.

(** An item that ends with [null] (no 2d context) is dropped from the list
    and its siblings are published in submission order. *)
Lemma null_item_is_dropped
    (p : Page) (order : list nat) (good blind good2 : File)
    (img img' img2 : ImageData) :
  files p = [good; blind; good2] ->
  load good = LoadOk img true ->
  load blind = LoadOk img' false ->
  load good2 = LoadOk img2 true ->
  complete 3 order ->
  processedImages (page (run' p order))
  = [entry toDataURL good img; entry toDataURL good2 img2].
Proof.
  intros Hfs Hg Hb Hg2 Hc.
  assert (files p <> []) as Hne by (rewrite Hfs; discriminate).
  rewrite (run_fulfilled load toDataURL p order Hne).
  - rewrite Hfs. cbn [omap list_omap]. unfold result_of.
    rewrite Hg, Hb, Hg2. reflexivity.
  - rewrite Hfs. exact Hc.
  - intros f Hf. rewrite Hfs in Hf. unfold fails.
    apply elem_of_cons in Hf as [-> | Hf]; [rewrite Hg; reflexivity |].
    apply elem_of_cons in Hf as [-> | Hf]; [rewrite Hb; reflexivity |].
    apply list_elem_of_singleton in Hf as ->. rewrite Hg2. reflexivity.
Qed.

(** C1 (amended): for [good, bad, good2] where only [bad] fails to decode,
    the run returns without raising: the rejection of the join is caught and
    logged, the two siblings are not aborted (their promises are fulfilled
    with their entries and both are counted), the failed item contributes no
    entry, and no entry at all is published. *)
Theorem partial_failure_publishes_nothing
    (p : Page) (order : list nat) (good bad good2 : File)
    (img img2 : ImageData) :
  files p = [good; bad; good2] ->
  load good = LoadOk img true ->
  load bad = LoadError ->
  load good2 = LoadOk img2 true ->
  complete 3 order ->
  returned (run' p order) = true /\
  isProcessing (page (run' p order)) = false /\
  ConsoleError ∈ trace (run' p order) /\
  processingPromises (run' p order)
  = [Fulfilled (Some (entry toDataURL good img)); Rejected;
     Fulfilled (Some (entry toDataURL good2 img2))] /\
  processedCount (run' p order) = 2%nat /\
  processedImages (page (run' p order)) = [] /\
  published (run' p order) = [].
Proof.
  intros Hfs Hg Hb Hg2 Hc.
  assert (files p <> []) as Hne by (rewrite Hfs; discriminate).
  assert (complete (length (files p)) order) as Hc' by (rewrite Hfs; exact Hc).
  pose proof (Inv_run load toDataURL p order Hne) as I.
  pose proof (run_returned load toDataURL p order Hne Hc') as Hret.
  pose proof (run_promises load toDataURL p order Hne Hc') as Hps.
  destruct (run_rejected load toDataURL p order bad Hc') as [Himg HE].
  { rewrite Hfs. right. left. }
  { unfold fails. rewrite Hb. reflexivity. }
  rewrite Hfs in Hps. cbn in Hps. unfold outcome in Hps.
  rewrite Hg, Hb, Hg2 in Hps.
  split; [exact Hret |].
  split; [apply (inv_returned _ _ _ _ I Hret) |].
  split; [exact HE |]. split; [exact Hps |].
  split; [rewrite (inv_count _ _ _ _ I), Hps; reflexivity |].
  split; [exact Himg |].
  rewrite (inv_published _ _ _ _ I). exact Himg.
Qed.

End BatchClaims.

Lemma demo_complete : complete 3 [2; 0; 1]%nat.
Proof.
  intros k Hk. destruct k as [| [| [| k]]]; [| | | lia];
    repeat constructor.
Qed.

Lemma empty_batch_is_noop_witness :
  let p := {| files := []; processedImages := [];
              isProcessing := false; processingProgress := Some 0 |} in
  page (run demo_load demo_toDataURL p [0; 1]%nat) = p /\
  trace (run demo_load demo_toDataURL p [0; 1]%nat) = [].
Proof.
  intros p.
  destruct (empty_batch_is_noop demo_load demo_toDataURL p [0; 1]%nat
              eq_refl) as (H1 & H2 & _).
  split; assumption.
Defined.

Lemma results_in_submission_order_witness :
  published (run demo_load demo_toDataURL (demo_page [good; good2])
                 [1; 0]%nat)
  = [entry demo_toDataURL good
       {| width := 1; height := 1; data := [255; 255; 255; 255] |};
     entry demo_toDataURL good2
       {| width := 1; height := 1; data := [0; 0; 0; 255] |}].
Proof.
  assert (complete 2 [1; 0]%nat) as Hc.
  { intros k Hk. destruct k as [| [| k]]; [| | lia]; repeat constructor. }
  destruct (results_in_submission_order demo_load demo_toDataURL
              (demo_page [good; good2]) [1; 0]%nat [0; 1]%nat Hc)
    as (H & _).
  { intros k Hk. destruct k as [| [| k]]; [| | cbn in Hk; lia];
      repeat constructor. }
  exact H.
Defined.

Lemma all_decodable_batch_witness :
  processingProgress
    (page (run demo_load demo_toDataURL (demo_page [good; good2])
               [1; 0]%nat)) = Some 100.
Proof.
  apply (all_decodable_batch demo_load demo_toDataURL
           (demo_page [good; good2]) [1; 0]%nat).
  - discriminate.
  - cbn. lia.
  - intros f Hf. cbn in Hf.
    apply elem_of_cons in Hf as [-> | Hf]; [eexists; reflexivity |].
    apply list_elem_of_singleton in Hf as ->. eexists; reflexivity.
  - intros k Hk. destruct k as [| [| k]]; [| | cbn in Hk; lia];
      repeat constructor.
Defined.

Lemma partial_failure_publishes_nothing_witness :
  processedImages
    (page (run demo_load demo_toDataURL (demo_page [good; bad; good2])
               [2; 0; 1]%nat)) = [] /\
  processedCount (run demo_load demo_toDataURL (demo_page [good; bad; good2])
                      [2; 0; 1]%nat) = 2%nat.
Proof.
  destruct (partial_failure_publishes_nothing demo_load demo_toDataURL
              (demo_page [good; bad; good2]) [2; 0; 1]%nat good bad good2
              _ _ eq_refl eq_refl eq_refl eq_refl demo_complete)
    as (_ & _ & _ & _ & Hc & Hi & _).
  split; assumption.
Defined.

(** C1 as stated fails: with [bad] failing to decode, the run publishes no
    entry, not the two entries of [good] and [good2]. *)
Lemma partial_failure_counterexample :
  let r := run demo_load demo_toDataURL (demo_page [good; bad; good2])
               [0; 1; 2]%nat in
  demo_load bad = LoadError /\
  (exists img, demo_load good = LoadOk img true) /\
  (exists img, demo_load good2 = LoadOk img true) /\
  processedImages (page r) = [] /\
  length (processedImages (page r)) <> 2%nat.
Proof.
  cbv zeta.
  split; [reflexivity |].
  split; [eexists; reflexivity |].
  split; [eexists; reflexivity |].
  split; [vm_compute; reflexivity |].
  vm_compute. discriminate.
Qed.

(** * Further properties *)

(** ** The pixel loop at every offset *)

Lemma float_add_nan_r (x : float) : (x + nan)%float = nan.
Proof.
  apply Prim2SF_inj. rewrite FloatAxioms.add_spec.
  change (Prim2SF nan) with S754_nan.
  unfold SF64add, SFadd. destruct (Prim2SF x); reflexivity.
Qed.

Lemma float_mul_nan_l (y : float) : (nan * y)%float = nan.
Proof.
  apply Prim2SF_inj. rewrite FloatAxioms.mul_spec.
  change (Prim2SF nan) with S754_nan. reflexivity.
Qed.

(** A pixel whose blue byte lies outside the buffer has no luminance
    index. *)
Lemma luminanceInt_at_short (d : list Z) (q : nat) :
  (length d <= q + 2)%nat -> luminanceInt_at d q = None.
Proof.
  intros H. unfold luminanceInt_at, get.
  rewrite (lookup_ge_None_2 d (q + 2)) by exact H.
  unfold luminance_sum. cbn [to_number].
  rewrite float_mul_nan_l, float_add_nan_r. reflexivity.
Qed.

(** What the loop leaves at offset [c] of pixel [k], for every offset of the
    buffer. *)
Lemma filter_data_lookup (d : list Z) (k c : nat) :
  (c < 4)%nat ->
  filter_data d !! (4 * k + c)%nat
  = if (c =? 3)%nat then d !! (4 * k + 3)%nat
    else if (4 * k + c <? length d)%nat
         then Some (u8c_of_value (get_at (lut c) (luminanceInt_at d (4 * k))))
         else None.
Proof.
  intros Hc. destruct (Nat.eqb_spec c 3) as [-> | Hne].
  - apply filter_data_alpha.
  - destruct (Nat.ltb_spec (4 * k + c) (length d)) as [Hlt | Hge].
    + apply filter_data_pixel; lia.
    + apply lookup_ge_None_2. rewrite filter_data_length. exact Hge.
Qed.

(** X5: a trailing pixel that lacks its blue byte is overwritten with zeros:
    the reads outside the buffer are [undefined], the sum is NaN, and the
    table reads are [undefined]. *)
Theorem filtering_zeroes_incomplete_pixel (d : list Z) (k c : nat) :
  (4 * k + c < length d)%nat -> (length d <= 4 * k + 2)%nat ->
  filter_data d !! (4 * k + c)%nat = Some 0.
Proof.
  intros Hin Hshort. rewrite filter_data_pixel by lia.
  rewrite luminanceInt_at_short by exact Hshort. reflexivity.
Qed.

Lemma filtering_zeroes_incomplete_pixel_witness :
  filter_data [255; 255; 255; 7; 9; 200] !! 5%nat = Some 0.
Proof.
  exact (filtering_zeroes_incomplete_pixel [255; 255; 255; 7; 9; 200] 1 1
           ltac:(cbn; lia) ltac:(cbn; lia)).
Defined.

(** X6: the loop treats every pixel on its own: filtering a buffer made of
    two parts, the first a whole number of pixels, is filtering the parts. *)
Theorem filtering_app (d1 d2 : list Z) (n : nat) :
  length d1 = (4 * n)%nat ->
  filter_data (d1 ++ d2) = filter_data d1 ++ filter_data d2.
Proof.
  intros Hlen. apply list_eq. intros j.
  assert (j = 4 * (j / 4) + j mod 4)%nat as Hj by apply Nat.div_mod_eq.
  assert (j mod 4 < 4)%nat as Hc by (apply Nat.mod_upper_bound; lia).
  set (k := (j / 4)%nat) in *. set (c := (j mod 4)%nat) in *.
  rewrite Hj. clear Hj.
  destruct (Nat.lt_ge_cases k n) as [Hk | Hk].
  - rewrite lookup_app_l by (rewrite filter_data_length; lia).
    rewrite !filter_data_lookup by exact Hc.
    rewrite length_app.
    destruct (Nat.eqb_spec c 3) as [-> | Hne].
    + apply lookup_app_l. lia.
    + replace (4 * k + c <? length d1 + length d2)%nat with true
        by (symmetry; apply Nat.ltb_lt; lia).
      replace (4 * k + c <? length d1)%nat with true
        by (symmetry; apply Nat.ltb_lt; lia).
      do 3 f_equal. apply luminanceInt_at_ext; apply lookup_app_l; lia.
  - rewrite lookup_app_r by (rewrite filter_data_length; lia).
    rewrite filter_data_length, Hlen.
    replace (4 * k + c - 4 * n)%nat with (4 * (k - n) + c)%nat by lia.
    rewrite !filter_data_lookup by exact Hc.
    rewrite length_app.
    assert (forall q, (4 * n <= q)%nat -> (d1 ++ d2) !! q = d2 !! (q - 4 * n)%nat)
      as Hr by (intros q Hq; rewrite lookup_app_r, Hlen by lia; reflexivity).
    destruct (Nat.eqb_spec c 3) as [-> | Hne].
    + rewrite Hr by lia. f_equal. lia.
    + replace (4 * k + c <? length d1 + length d2)%nat
        with (4 * (k - n) + c <? length d2)%nat
        by (destruct (Nat.ltb_spec (4 * (k - n) + c) (length d2));
            symmetry; [apply Nat.ltb_lt | apply Nat.ltb_ge]; lia).
      destruct (4 * (k - n) + c <? length d2)%nat; [| reflexivity].
      do 3 f_equal. unfold luminanceInt_at, get.
      rewrite !Hr by lia.
      replace (4 * k - 4 * n)%nat with (4 * (k - n))%nat by lia.
      replace (4 * k + 1 - 4 * n)%nat with (4 * (k - n) + 1)%nat by lia.
      replace (4 * k + 2 - 4 * n)%nat with (4 * (k - n) + 2)%nat by lia.
      reflexivity.
Qed.

Lemma filtering_app_witness :
  filter_data ([255; 255; 255; 7] ++ [0; 0; 0; 9])
  = [249; 159; 210; 7] ++ [22; 80; 39; 9].
Proof.
  rewrite (filtering_app [255; 255; 255; 7] [0; 0; 0; 9] 1 eq_refl).
  vm_compute. reflexivity.
Defined.

(** ** Order and range of the output colours *)

(** The index of a pixel of bytes, with the entry each table holds there. *)
Lemma pixel_index (d : list Z) (k : nat) (r g b : Z) :
  d !! (4 * k)%nat = Some r -> d !! (4 * k + 1)%nat = Some g ->
  d !! (4 * k + 2)%nat = Some b -> byte r -> byte g -> byte b ->
  exists l,
    luminanceInt_at d (4 * k) = Some l /\ 0 <= l <= 255 /\
    Z.abs (10000 * l - weighted r g b) <= 5000 /\
    forall c, (c < 3)%nat ->
      exists v, lut c !! Z.to_nat l = Some v /\
                filter_data d !! (4 * k + c)%nat = Some v.
Proof.
  intros Hr Hg Hb Br Bg Bb.
  destruct (luminance_nearest r g b Br Bg Bb) as (l & Hl & Habs).
  assert (0 <= l <= 255) as Bl by (unfold byte in *; lia).
  exists l. split; [| split; [exact Bl | split; [exact Habs |]]].
  - rewrite (luminanceInt_at_pixel d (4 * k) r g b Hr Hg Hb).
    rewrite spec_luminance_code. exact Hl.
  - intros c Hc.
    destruct (get_at_byte c l Hc Bl) as (v & Hget & Hv & _ & Hu).
    exists v. split; [exact Hv |].
    rewrite filter_data_pixel;
      [| exact Hc | apply lookup_lt_Some in Hb; lia].
    rewrite (luminanceInt_at_pixel d (4 * k) r g b Hr Hg Hb).
    rewrite spec_luminance_code, Hl, Hget, Hu. reflexivity.
Qed.

(** X2: the transform keeps the order of brightness: of two pixels (of the
    same image or not), the one with the strictly smaller exact weighted sum
    never gets a larger output channel. *)
Theorem filtering_keeps_brightness_order
    (d1 d2 : list Z) (k1 k2 : nat) (r1 g1 b1 r2 g2 b2 : Z) :
  d1 !! (4 * k1)%nat = Some r1 -> d1 !! (4 * k1 + 1)%nat = Some g1 ->
  d1 !! (4 * k1 + 2)%nat = Some b1 ->
  d2 !! (4 * k2)%nat = Some r2 -> d2 !! (4 * k2 + 1)%nat = Some g2 ->
  d2 !! (4 * k2 + 2)%nat = Some b2 ->
  byte r1 -> byte g1 -> byte b1 -> byte r2 -> byte g2 -> byte b2 ->
  weighted r1 g1 b1 < weighted r2 g2 b2 ->
  forall c, (c < 3)%nat ->
    exists v1 v2,
      filter_data d1 !! (4 * k1 + c)%nat = Some v1 /\
      filter_data d2 !! (4 * k2 + c)%nat = Some v2 /\
      v1 <= v2.
Proof.
  intros Hr1 Hg1 Hb1 Hr2 Hg2 Hb2 Br1 Bg1 Bb1 Br2 Bg2 Bb2 Hlt c Hc.
  destruct (pixel_index d1 k1 r1 g1 b1 Hr1 Hg1 Hb1 Br1 Bg1 Bb1)
    as (l1 & _ & Bl1 & Ha1 & Hout1).
  destruct (pixel_index d2 k2 r2 g2 b2 Hr2 Hg2 Hb2 Br2 Bg2 Bb2)
    as (l2 & _ & Bl2 & Ha2 & Hout2).
  destruct (Hout1 c Hc) as (v1 & Ht1 & Hv1).
  destruct (Hout2 c Hc) as (v2 & Ht2 & Hv2).
  exists v1, v2. split; [exact Hv1 | split; [exact Hv2 |]].
  destruct (lut_ok c Hc) as (a & b & _ & _ & Hok).
  apply (table_ok_mono (lut c) a b (Z.to_nat l1) (Z.to_nat l2) v1 v2 Hok);
    [| exact Ht1 | exact Ht2].
  lia.
Qed.

Lemma filtering_keeps_brightness_order_witness :
  exists v1 v2,
    filter_data [10; 200; 30; 255; 90; 201; 30; 255] !! (4 * 0 + 1)%nat
      = Some v1 /\
    filter_data [10; 200; 30; 255; 90; 201; 30; 255] !! (4 * 1 + 1)%nat
      = Some v2 /\
    v1 <= v2.
Proof.
  exact (filtering_keeps_brightness_order
           [10; 200; 30; 255; 90; 201; 30; 255]
           [10; 200; 30; 255; 90; 201; 30; 255] 0 1 10 200 30 90 201 30
           eq_refl eq_refl eq_refl eq_refl eq_refl eq_refl
           ltac:(unfold byte; lia) ltac:(unfold byte; lia)
           ltac:(unfold byte; lia) ltac:(unfold byte; lia)
           ltac:(unfold byte; lia) ltac:(unfold byte; lia)
           ltac:(unfold weighted; lia) 1%nat ltac:(lia)).
Defined.

(** Strictness cannot be dropped: two pixels with the same exact weighted
    sum, half-way between two integers, that binary64 sends to different
    indices. *)
Lemma equal_weight_different_index :
  weighted 48 7 4 = weighted 0 14 76 /\
  spec_luminance 48 7 4 = Some 16 /\ spec_luminance 0 14 76 = Some 15.
Proof. vm_compute. repeat split; reflexivity. Qed.

(** X3: every colour the transform writes lies on the gradient between the
    two anchor colours: channel [c] of a pixel of bytes ends between
    [COLOR_A[c]] and [COLOR_B[c]]. *)
Theorem filtering_output_between_anchors
    (d : list Z) (k : nat) (r g b : Z) :
  d !! (4 * k)%nat = Some r -> d !! (4 * k + 1)%nat = Some g ->
  d !! (4 * k + 2)%nat = Some b -> byte r -> byte g -> byte b ->
  forall c, (c < 3)%nat ->
    exists lo hi v,
      COLOR_A !! c = Some lo /\ COLOR_B !! c = Some hi /\
      filter_data d !! (4 * k + c)%nat = Some v /\ lo <= v <= hi.
Proof.
  intros Hr Hg Hb Br Bg Bb c Hc.
  destruct (pixel_index d k r g b Hr Hg Hb Br Bg Bb)
    as (l & _ & Bl & _ & Hout).
  destruct (Hout c Hc) as (v & Ht & Hv).
  destruct (lut_ok c Hc) as (lo & hi & HA & HB & Hok).
  destruct (table_ok_ends _ _ _ Hok) as [H0 H255].
  exists lo, hi, v. repeat split; try assumption.
  - apply (table_ok_mono (lut c) lo hi 0 (Z.to_nat l) lo v Hok);
      [lia | exact H0 | exact Ht].
  - apply (table_ok_mono (lut c) lo hi (Z.to_nat l) 255 v hi Hok);
      [lia | exact Ht | exact H255].
Qed.

Lemma filtering_output_between_anchors_witness :
  exists lo hi v,
    COLOR_A !! 2%nat = Some lo /\ COLOR_B !! 2%nat = Some hi /\
    filter_data [10; 200; 30; 255] !! (4 * 0 + 2)%nat = Some v /\
    lo <= v <= hi.
Proof.
  exact (filtering_output_between_anchors [10; 200; 30; 255] 0 10 200 30
           eq_refl eq_refl eq_refl
           ltac:(unfold byte; lia) ltac:(unfold byte; lia)
           ltac:(unfold byte; lia) 2%nat ltac:(lia)).
Defined.

Lemma filtering_well_formed_aux (d : list Z) (k : nat) (r g b : Z) :
  d !! (4 * k)%nat = Some r -> d !! (4 * k + 1)%nat = Some g ->
  d !! (4 * k + 2)%nat = Some b -> byte r -> byte g -> byte b ->
  forall c, (c < 3)%nat ->
    exists v, filter_data d !! (4 * k + c)%nat = Some v /\ byte v.
Proof.
  intros Hr Hg Hb Br Bg Bb c Hc.
  destruct (pixel_index d k r g b Hr Hg Hb Br Bg Bb)
    as (l & _ & Bl & _ & Hout).
  destruct (Hout c Hc) as (v & Ht & Hv).
  exists v. split; [exact Hv |].
  destruct (get_at_byte c l Hc Bl) as (v' & _ & Hv' & Bv' & _).
  rewrite Ht in Hv'. injection Hv' as ->. exact Bv'.
Qed.

(** X7: a canvas image stays a canvas image: same dimensions, same number of
    bytes, every element a byte, provided the input is one. *)
Theorem filtering_well_formed (img : ImageData) :
  well_formed img ->
  well_formed (filtering img) /\
  width (filtering img) = width img /\ height (filtering img) = height img.
Proof.
  intros [Hlen Hby]. split; [| split; reflexivity].
  split.
  - cbn. rewrite filter_data_length. exact Hlen.
  - cbn. apply Forall_lookup_2. intros j x Hx.
    assert (j < length (data img))%nat as Hj
      by (apply lookup_lt_Some in Hx; rewrite filter_data_length in Hx;
          exact Hx).
    assert (j = 4 * (j / 4) + j mod 4)%nat as Ej by apply Nat.div_mod_eq.
    assert (j mod 4 < 4)%nat as Hc by (apply Nat.mod_upper_bound; lia).
    set (k := (j / 4)%nat) in *. set (c := (j mod 4)%nat) in *.
    assert (forall o, (o < 4)%nat -> exists z, data img !! (4 * k + o)%nat
                                               = Some z /\ byte z) as Hel.
    { intros o Ho.
      destruct (lookup_lt_is_Some_2 (data img) (4 * k + o)) as [z Hz];
        [lia |].
      exists z. split; [exact Hz |].
      exact (Forall_lookup_1 _ _ _ _ Hby Hz). }
    rewrite Ej in Hx.
    destruct (Nat.eq_dec c 3) as [E3 | Hne].
    + rewrite E3, filter_data_alpha in Hx.
      exact (Forall_lookup_1 _ _ _ _ Hby Hx).
    + destruct (Hel 0%nat ltac:(lia)) as (r & Hr & Br).
      destruct (Hel 1%nat ltac:(lia)) as (g & Hg & Bg).
      destruct (Hel 2%nat ltac:(lia)) as (b & Hb & Bb).
      rewrite Nat.add_0_r in Hr.
      destruct (filtering_well_formed_aux (data img) k r g b Hr Hg Hb Br Bg Bb c
                  ltac:(lia)) as (v & Hv & Bv).
      rewrite Hv in Hx. injection Hx as <-. exact Bv.
Qed.

Lemma filtering_well_formed_witness :
  well_formed (filtering {| width := 1; height := 2;
                            data := [10; 200; 30; 255; 0; 0; 0; 128] |}).
Proof.
  apply (filtering_well_formed
           {| width := 1; height := 2;
              data := [10; 200; 30; 255; 0; 0; 0; 128] |}).
  split; [reflexivity |].
  repeat constructor; unfold byte; lia.
Defined.

(** X4: the luminance index of a pixel lies between its smallest and its
    largest channel, and the output channels are the table entries at that
    index; so a grey pixel of level [v] is sent to entry [v] of the three
    tables, and every colour of the tables is the image of some pixel. *)
Theorem luminance_between_channels (d : list Z) (k : nat) (r g b : Z) :
  d !! (4 * k)%nat = Some r -> d !! (4 * k + 1)%nat = Some g ->
  d !! (4 * k + 2)%nat = Some b -> byte r -> byte g -> byte b ->
  exists l,
    luminanceInt_at d (4 * k) = Some l /\
    Z.min r (Z.min g b) <= l <= Z.max r (Z.max g b) /\
    forall c, (c < 3)%nat ->
      filter_data d !! (4 * k + c)%nat = lut c !! Z.to_nat l /\
      is_Some (lut c !! Z.to_nat l).
Proof.
  intros Hr Hg Hb Br Bg Bb.
  destruct (pixel_index d k r g b Hr Hg Hb Br Bg Bb)
    as (l & Hl & Bl & Habs & Hout).
  exists l. split; [exact Hl |]. split.
  - unfold weighted, byte in *. lia.
  - intros c Hc. destruct (Hout c Hc) as (w & Hw & Hf).
    rewrite Hf, Hw. split; [reflexivity | eexists; reflexivity].
Qed.

Lemma luminance_between_channels_witness :
  luminanceInt_at [128; 128; 128; 255] (4 * 0) = Some 128.
Proof.
  destruct (luminance_between_channels [128; 128; 128; 255] 0 128 128 128
              eq_refl eq_refl eq_refl ltac:(unfold byte; lia)
              ltac:(unfold byte; lia) ltac:(unfold byte; lia))
    as (l & Hl & Hb & _).
  rewrite Hl. f_equal.
  change (Z.min 128 (Z.min 128 128)) with 128 in Hb.
  change (Z.max 128 (Z.max 128 128)) with 128 in Hb. lia.
Defined.

Lemma lut_mix_any_anchors_witness :
  ToUint8Clamp (lut_mix (num 200) (num 10) 100)
  = spec_lut round_half_up 200 10 100 /\
  ToUint8Clamp (lut_mix (num 200) (num 10) 200)
  <= ToUint8Clamp (lut_mix (num 200) (num 10) 100).
Proof.
  destruct (lut_mix_any_anchors 200 10 100 200 ltac:(lia) ltac:(lia)
              ltac:(lia) ltac:(lia)) as (_ & Hup & _ & _ & _ & Hdown).
  split; [exact Hup | apply Hdown; lia].
Defined.

(** ** A batch run at every moment *)

Section RunFurther.

Variable load : File -> Loaded.
Variable toDataURL : ImageData -> string.

Abbreviation outcome := (outcome load toDataURL).
Abbreviation item := (item load toDataURL).
Abbreviation step := (step load toDataURL).
Abbreviation run := (run load toDataURL).

Lemma step_other (r : Run) (j k : nat) :
  j <> k ->
  processingPromises (step r j) !! k = processingPromises r !! k.
Proof.
  intros Hjk. unfold step. rewrite resume_promises.
  destruct (processingPromises r !! j) as [[| v |] |] eqn:Hj;
    try (rewrite item_settled by congruence; reflexivity).
  destruct (input r !! j) as [file |] eqn:Hf.
  - destruct (item_pending load toDataURL r j file Hj Hf)
      as (_ & _ & _ & _ & _ & -> & _).
    apply list_lookup_insert_ne. exact Hjk.
  - unfold item. rewrite Hj, Hf. reflexivity.
Qed.

Lemma files_nonempty (p : Page) (k : nat) (f : File) :
  files p !! k = Some f -> files p <> [].
Proof. intros H E. rewrite E in H. discriminate. Qed.

(** The promise of item [k] at any moment of a run. *)
Lemma promise_at
    (p : Page) (order : list nat) (k : nat) (f : File) :
  files p !! k = Some f ->
  processingPromises (run p order) !! k
  = Some (if bool_decide (k ∈ order) then outcome f else Pending).
Proof.
  intros Hf. pose proof (files_nonempty p k f Hf) as Hne.
  case_bool_decide as Hin.
  - destruct (run_settled load toDataURL p order k Hne Hin)
      as (q & Hq & Hnp); [eapply lookup_lt_Some, Hf |].
    pose proof (inv_promises _ _ _ _ (Inv_run load toDataURL p order Hne))
      as HF.
    destruct (Forall2_lookup_lr _ _ _ _ _ _ HF Hf Hq) as [-> | ->];
      [congruence | exact Hq].
  - induction order as [| j order IH] using rev_ind.
    + unfold run. cbn [foldl]. unfold handleConvert.
      destruct (files p) as [| f0 fs] eqn:E; [congruence |].
      cbn [processingPromises]. rewrite list_lookup_fmap, Hf. reflexivity.
    + rewrite run_snoc. rewrite step_other.
      * apply IH. intros H. apply Hin. apply elem_of_app. left. exact H.
      * intros ->. apply Hin. apply elem_of_app. right.
        apply list_elem_of_singleton. reflexivity.
Qed.

(** X8: an item promise is pending exactly until the event of its item
    occurs, and from then on holds the outcome of its file, whatever events
    follow. *)
Theorem item_promise_settles_once
    (p : Page) (order later : list nat) (k : nat) (f : File) :
  files p !! k = Some f ->
  processingPromises (run p order) !! k
  = Some (if bool_decide (k ∈ order) then outcome f else Pending) /\
  (k ∈ order ->
   processingPromises (run p (order ++ later)) !! k
   = processingPromises (run p order) !! k).
Proof.
  intros Hf. split; [apply promise_at, Hf |].
  intros Hin. rewrite !(promise_at _ _ k f Hf).
  rewrite !bool_decide_eq_true_2; [reflexivity | exact Hin |].
  apply elem_of_app. left. exact Hin.
Qed.


Lemma outcome_rejected (f : File) :
  outcome f = Rejected -> fails load f = true.
Proof.
  unfold outcome, fails. destruct (load f) as [| img [|]];
    [reflexivity | discriminate ..].
Qed.

Lemma run_busy (p : Page) (order : list nat) :
  files p <> [] ->
  isProcessing (page (run p order)) = negb (returned (run p order)).
Proof.
  intros Hne. pose proof (Inv_run load toDataURL p order Hne) as I.
  destruct (returned (run p order)) eqn:E.
  - apply (inv_returned _ _ _ _ I E).
  - apply (inv_running _ _ _ _ I E).
Qed.

Lemma run_returned_cases (p : Page) (order : list nat) :
  files p <> [] -> returned (run p order) = true ->
  met_failure load (files p) order \/ complete (length (files p)) order.
Proof.
  intros Hne Hret.
  pose proof (Inv_run load toDataURL p order Hne) as I.
  pose proof (Forall2_length _ _ _ (inv_promises _ _ _ _ I)) as Hlen.
  destruct (inv_returned _ _ _ _ I Hret) as [_ [(Hrej & _) | (res & Hres & _)]].
  - left. apply list_elem_of_lookup in Hrej as [k Hk].
    destruct (lookup_lt_is_Some_2 (files p) k) as [f Hf].
    { rewrite Hlen. eapply lookup_lt_Some, Hk. }
    rewrite (promise_at p order k f Hf) in Hk.
    case_bool_decide as Hin; [| discriminate].
    exists k, f. split; [exact Hin |]. split; [exact Hf |].
    apply outcome_rejected. congruence.
  - right. intros k Hk.
    destruct (lookup_lt_is_Some_2 (files p) k Hk) as [f Hf].
    pose proof (promise_at p order k f Hf) as Hp.
    case_bool_decide as Hin; [exact Hin |].
    apply Promise_all_fulfilled in Hres. rewrite Hres in Hp.
    rewrite list_lookup_fmap in Hp.
    destruct (res !! k); discriminate.
Qed.

Lemma run_met_failure (p : Page) (order : list nat) :
  met_failure load (files p) order ->
  Rejected ∈ processingPromises (run p order) /\
  returned (run p order) = true.
Proof.
  intros (k & f & Hin & Hf & Hfail).
  pose proof (files_nonempty p k f Hf) as Hne.
  pose proof (promise_at p order k f Hf) as Hp.
  rewrite bool_decide_eq_true_2 in Hp by exact Hin.
  rewrite (outcome_fails load toDataURL f Hfail) in Hp.
  assert (Rejected ∈ processingPromises (run p order)) as Hrej
    by (eapply list_elem_of_lookup_2, Hp).
  split; [exact Hrej |].
  destruct (returned (run p order)) eqn:E; [reflexivity |].
  pose proof (Joined_run load toDataURL p order E) as HJ.
  apply Promise_all_pending in HJ as [HJ _]. contradiction.
Qed.

(** X9: a run of a non-empty batch ends exactly when an item has failed or
    every item has finished; until then the page stays in the processing
    state with no results, however long an image takes to load. *)
Theorem run_ends_exactly_when (p : Page) (order : list nat) :
  files p <> [] ->
  (returned (run p order) = true <->
   met_failure load (files p) order \/ complete (length (files p)) order) /\
  isProcessing (page (run p order)) = negb (returned (run p order)) /\
  (returned (run p order) = false -> processedImages (page (run p order)) = []).
Proof.
  intros Hne. split; [| split].
  - split.
    + apply run_returned_cases. exact Hne.
    + intros [H | H].
      * apply run_met_failure. exact H.
      * apply run_returned; assumption.
  - apply run_busy. exact Hne.
  - intros E.
    apply (inv_running _ _ _ _ (Inv_run load toDataURL p order Hne) E).
Qed.

(** X10: the first failing item ends the run at once: the run returns, logs
    the error, clears the processing flag and delivers nothing, without
    waiting for the items that are still loading. *)
Theorem failure_ends_run_early
    (p : Page) (order : list nat) (k : nat) (f : File) :
  files p !! k = Some f -> fails load f = true -> k ∈ order ->
  returned (run p order) = true /\
  isProcessing (page (run p order)) = false /\
  processedImages (page (run p order)) = [] /\
  published (run p order) = [] /\
  ConsoleError ∈ trace (run p order) /\
  forall j g, files p !! j = Some g -> j ∉ order ->
    processingPromises (run p order) !! j = Some Pending.
Proof.
  intros Hf Hfail Hin. pose proof (files_nonempty p k f Hf) as Hne.
  pose proof (Inv_run load toDataURL p order Hne) as I.
  destruct (run_met_failure p order) as [Hrej Hret];
    [exists k, f; repeat split; assumption |].
  destruct (inv_returned _ _ _ _ I Hret)
    as [Hproc [(_ & Himgs & Herr) | (res & Hres & _)]].
  - split; [exact Hret |]. split; [exact Hproc |]. split; [exact Himgs |].
    split; [rewrite (inv_published _ _ _ _ I); exact Himgs |].
    split; [exact Herr |].
    intros j g Hg Hj.
    rewrite (promise_at p order j g Hg).
    rewrite bool_decide_eq_false_2 by exact Hj. reflexivity.
  - apply Promise_all_rejected in Hrej. congruence.
Qed.

Lemma revoked_app (k : nat) (t1 t2 : list Event) :
  revoked k (t1 ++ t2) = (revoked k t1 + revoked k t2)%nat.
Proof.
  induction t1 as [| e t1 IH]; [reflexivity |].
  destruct e; cbn; rewrite IH; lia.
Qed.

Lemma revoked_resume (k : nat) (r : Run) :
  revoked k (trace (resume r)) = revoked k (trace r).
Proof.
  unfold resume. destruct (returned r); [reflexivity |].
  destruct (Promise_all (processingPromises r)); cbn [trace];
    rewrite ?revoked_app; cbn; lia.
Qed.

Lemma revoked_item (k j : nat) (r : Run) (file : File) :
  processingPromises r !! j = Some Pending -> input r !! j = Some file ->
  revoked k (trace (item j r))
  = (revoked k (trace r) + if (j =? k)%nat then 1 else 0)%nat.
Proof.
  intros Hj Hf. unfold item. rewrite Hj, Hf.
  destruct (load file) as [| img [|]]; cbn [trace];
    rewrite revoked_app; cbn; lia.
Qed.

Lemma elem_of_snoc_old (k j : nat) (order : list nat) :
  j ∈ order -> k ∈ order ++ [j] <-> k ∈ order.
Proof.
  intros Hj. rewrite elem_of_app, list_elem_of_singleton. split.
  - intros [H | ->]; assumption.
  - intros H. left. exact H.
Qed.

Lemma elem_of_snoc_ne (k j : nat) (order : list nat) :
  j <> k -> k ∈ order ++ [j] <-> k ∈ order.
Proof.
  intros Hj. rewrite elem_of_app, list_elem_of_singleton. split.
  - intros [H | ->]; [exact H | contradiction].
  - intros H. left. exact H.
Qed.

(** X11: the run revokes the object URL of every item exactly once, when the
    item finishes, whether it succeeded, failed or got no context; repeated
    or foreign events revoke nothing. *)
Theorem object_urls_revoked_once (p : Page) (order : list nat) (k : nat) :
  revoked k (trace (run p order))
  = if bool_decide (k ∈ order /\ (k < length (files p))%nat) then 1%nat
    else 0%nat.
Proof.
  destruct (files p) as [| f0 fs] eqn:E.
  { rewrite (run_empty load toDataURL p order E).
    unfold handleConvert. rewrite E. cbn.
    rewrite bool_decide_eq_false_2; [reflexivity | lia]. }
  assert (files p <> []) as Hne by congruence. rewrite <- E. clear E f0 fs.
  induction order as [| j order IH] using rev_ind.
  - unfold run. cbn [foldl]. unfold handleConvert.
    destruct (files p); [congruence |]. cbn.
    rewrite bool_decide_eq_false_2; [reflexivity |].
    intros [H _]. inversion H.
  - rewrite run_snoc. unfold step at 1. rewrite revoked_resume.
    pose proof (Inv_run load toDataURL p order Hne) as I.
    destruct (files p !! j) as [f |] eqn:Hf.
    + pose proof (promise_at p order j f Hf) as Hp.
      case_bool_decide as Hjin.
      * rewrite item_settled
          by (rewrite Hp; pose proof (outcome_not_pending load toDataURL f);
              congruence).
        rewrite IH. erewrite bool_decide_ext; [reflexivity |].
        pose proof (elem_of_snoc_old k j order Hjin). tauto.
      * rewrite (revoked_item k j _ f Hp)
          by (rewrite (inv_input _ _ _ _ I); exact Hf).
        rewrite IH. apply lookup_lt_Some in Hf.
        destruct (Nat.eqb_spec j k) as [-> | Hjk].
        -- rewrite bool_decide_eq_false_2 by tauto.
           rewrite bool_decide_eq_true_2; [reflexivity |].
           split; [| exact Hf]. apply elem_of_app. right.
           apply list_elem_of_singleton. reflexivity.
        -- rewrite Nat.add_0_r. erewrite bool_decide_ext; [reflexivity |].
           pose proof (elem_of_snoc_ne k j order Hjk). tauto.
    + rewrite item_settled.
      * rewrite IH. erewrite bool_decide_ext; [reflexivity |].
        apply lookup_ge_None_1 in Hf. split.
        -- intros [H1 H2]. split; [| exact H2]. apply elem_of_app. left.
           exact H1.
        -- intros [H1 H2]. split; [| exact H2].
           apply elem_of_app in H1 as [H1 | H1]; [exact H1 |].
           apply list_elem_of_singleton in H1. lia.
      * pose proof (Forall2_length _ _ _ (inv_promises _ _ _ _ I)) as Hlen.
        apply lookup_ge_None_1 in Hf.
        rewrite (lookup_ge_None_2 (processingPromises _) j) by lia.
        discriminate.
Qed.

End RunFurther.

Lemma item_promise_settles_once_witness :
  processingPromises
    (run demo_load demo_toDataURL (demo_page [good; bad; good2]) [2; 2]%nat)
    !! 0%nat = Some Pending.
Proof.
  exact (proj1 (item_promise_settles_once demo_load demo_toDataURL
                  (demo_page [good; bad; good2]) [2; 2]%nat [] 0 good
                  eq_refl)).
Defined.

Lemma run_ends_exactly_when_witness :
  isProcessing
    (page (run demo_load demo_toDataURL (demo_page [good; good2]) [1]%nat))
  = negb (returned (run demo_load demo_toDataURL (demo_page [good; good2])
                        [1]%nat)).
Proof.
  exact (proj1 (proj2 (run_ends_exactly_when demo_load demo_toDataURL
                         (demo_page [good; good2]) [1]%nat
                         ltac:(discriminate)))).
Defined.

Lemma failure_ends_run_early_witness :
  returned (run demo_load demo_toDataURL (demo_page [good; bad; good2])
                [1]%nat) = true /\
  processingPromises
    (run demo_load demo_toDataURL (demo_page [good; bad; good2]) [1]%nat)
    !! 2%nat = Some Pending.
Proof.
  destruct (failure_ends_run_early demo_load demo_toDataURL
              (demo_page [good; bad; good2]) [1]%nat 1 bad eq_refl eq_refl
              ltac:(apply list_elem_of_here))
    as (Hret & _ & _ & _ & _ & Hpend).
  split; [exact Hret |].
  apply (Hpend 2%nat good2 eq_refl).
  intros H. apply list_elem_of_singleton in H. discriminate.
Defined.

(** ** The progress value during a run *)

Lemma progress_search_spec (ns : list int) (c n : int) :
  progress_search ns = true -> In n ns -> In c ns ->
  (n <? c)%uint63 = false ->
  progress_ok c n ((of_uint63 c / of_uint63 n) * 100)%float = true.
Proof.
  unfold progress_search. intros H Hn Hc Hle.
  rewrite forallb_forall in H. specialize (H n Hn). cbv zeta beta in H.
  rewrite forallb_forall in H. specialize (H c Hc). cbv beta in H.
  rewrite Hle in H. exact H.
Qed.

Lemma progress_search_ok :
  progress_search (Uint63.of_Z <$> batch_sizes) = true.
Proof. vm_compute. reflexivity. Qed.

Lemma batch_sizes_spec (z : Z) :
  1 <= z <= 2048 -> In (Uint63.of_Z z) (Uint63.of_Z <$> batch_sizes).
Proof.
  intros Hz. apply list_elem_of_In, list_elem_of_fmap_2.
  unfold batch_sizes. apply list_elem_of_fmap.
  exists (Z.to_nat z). split; [lia |].
  apply list_elem_of_In, in_seq. lia.
Qed.

Lemma to_Z_of_small (z : Z) :
  0 <= z < 4611686018427387904 -> Uint63.to_Z (Uint63.of_Z z) = z.
Proof.
  intros Hz. rewrite Uint63.of_Z_spec. apply Z.mod_small.
  change wB with 9223372036854775808. lia.
Qed.

(** The progress value of [c] items out of [n] is an integer nearest to the
    exact percentage. *)
Lemma progress_nearest (c n : Z) :
  1 <= c <= n -> n <= 2048 ->
  exists k,
    Math_round ((num c / num n) * 100)%float = Some k /\
    Z.abs (2 * n * k - 200 * c) <= n /\ 0 <= k <= 100.
Proof.
  intros Hc Hn.
  assert (Uint63.to_Z (Uint63.of_Z c) = c) as Ec by (apply to_Z_of_small; lia).
  assert (Uint63.to_Z (Uint63.of_Z n) = n) as En by (apply to_Z_of_small; lia).
  pose proof (progress_search_spec _ (Uint63.of_Z c) (Uint63.of_Z n)
                progress_search_ok
                (batch_sizes_spec n ltac:(lia))
                (batch_sizes_spec c ltac:(lia))) as H.
  specialize (H ltac:(apply Bool.not_true_is_false; intros Hlt;
                      apply Uint63.ltb_spec in Hlt; lia)).
  fold (num c) (num n) in H.
  set (x := ((num c / num n) * 100)%float) in *.
  unfold progress_ok in H. cbv zeta in H.
  set (ci := Uint63.of_Z c) in *. set (ni := Uint63.of_Z n) in *.
  assert (Uint63.to_Z (200 * ci + ni)%uint63 = 200 * c + n) as Hnum.
  { rewrite Uint63.add_spec, Uint63.mul_spec, Ec, En.
    change (Uint63.to_Z 200%uint63) with 200.
    change wB with 9223372036854775808.
    rewrite (Z.mod_small (200 * c)) by lia. apply Z.mod_small. lia. }
  assert (Uint63.to_Z (2 * ni)%uint63 = 2 * n) as Hden.
  { rewrite Uint63.mul_spec, En. change (Uint63.to_Z 2%uint63) with 2.
    apply Z.mod_small. change wB with 9223372036854775808. lia. }
  set (k := ((200 * ci + ni) / (2 * ni))%uint63) in *.
  assert (Uint63.to_Z k = (200 * c + n) / (2 * n)) as Hk.
  { unfold k. rewrite Uint63.div_spec, Hnum, Hden. reflexivity. }
  set (K := (200 * c + n) / (2 * n)) in *.
  pose proof (Z.div_mod (200 * c + n) (2 * n) ltac:(lia)) as Hdm.
  pose proof (Z.mod_pos_bound (200 * c + n) (2 * n) ltac:(lia)) as Hmod.
  fold K in Hdm.
  assert (0 <= K <= 100) as HK.
  { unfold K. split; [apply Z.div_pos; lia |].
    apply Z.lt_succ_r, Z.div_lt_upper_bound; lia. }
  apply orb_prop in H as [H | H].
  - exists K. split; [| split; [lia | exact HK]].
    apply Math_round_cell; [lia |].
    unfold num. rewrite <- Hk, Uint63.of_to_Z. exact H.
  - apply andb_prop in H as [He H]. apply Uint63.eqb_spec in He.
    assert (200 * c + n = 2 * n * K) as HeZ.
    { rewrite <- Hnum, He, Uint63.mul_spec, Hden, Hk.
      apply Z.mod_small. change wB with 9223372036854775808. nia. }
    assert (1 <= K) as HK1 by nia.
    assert (Uint63.to_Z (k - 1)%uint63 = K - 1) as Hk1.
    { rewrite Uint63.sub_spec, Hk. change (Uint63.to_Z 1%uint63) with 1.
      apply Z.mod_small. change wB with 9223372036854775808. lia. }
    exists (K - 1). split; [| split; [lia | lia]].
    apply Math_round_cell; [lia |].
    unfold num. rewrite <- Hk1, Uint63.of_to_Z. exact H.
Qed.

(** X12: the percentage computed for [c] of [n] finished items is an integer
    nearest to [100 * c / n], lies between 0 and 100, and is 100 when all
    items are counted (batches of up to 2048 files). *)
Theorem progress_is_nearest_percent (c n : nat) :
  (1 <= c <= n)%nat -> (n <= 2048)%nat ->
  exists k,
    progress_of c n = Some k /\
    Z.abs (2 * Z.of_nat n * k - 200 * Z.of_nat c) <= Z.of_nat n /\
    0 <= k <= 100 /\
    (c = n -> k = 100).
Proof.
  intros Hc Hn.
  destruct (progress_nearest (Z.of_nat c) (Z.of_nat n) ltac:(lia) ltac:(lia))
    as (k & Hk & Habs & Hb).
  exists k. split; [| split; [exact Habs | split; [exact Hb |]]].
  - destruct c as [| c']; [lia |]. exact Hk.
  - intros ->. apply Z.abs_le in Habs. nia.
Qed.

Lemma progress_is_nearest_percent_witness :
  exists k, progress_of 1 3 = Some k /\
    Z.abs (2 * Z.of_nat 3 * k - 200 * Z.of_nat 1) <= Z.of_nat 3 /\
    0 <= k <= 100 /\ (1%nat = 3%nat -> k = 100).
Proof.
  exact (progress_is_nearest_percent 1 3 ltac:(lia) ltac:(lia)).
Defined.

Lemma progress_of_mono (c c' n : nat) (k k' : Z) :
  (c <= c' <= n)%nat -> (n <= 2048)%nat ->
  progress_of c n = Some k -> progress_of c' n = Some k' ->
  0 <= k <= k' /\ k' <= 100.
Proof.
  intros Hc Hn Hk Hk'.
  assert (forall d j, (d <= n)%nat -> progress_of d n = Some j ->
            Z.abs (2 * Z.of_nat n * j - 200 * Z.of_nat d) <= Z.of_nat n /\
            0 <= j <= 100) as Hnear.
  { intros d j Hd Hj. destruct d as [| d'].
    - cbn in Hj. injection Hj as <-. lia.
    - destruct (progress_nearest (Z.of_nat (S d')) (Z.of_nat n)
                  ltac:(lia) ltac:(lia)) as (j' & Hj' & Habs & Hb).
      change (progress_of (S d') n)
        with (Math_round ((num (Z.of_nat (S d')) / num (Z.of_nat n))
                          * 100)%float) in Hj.
      rewrite Hj in Hj'. injection Hj' as <-. split; assumption. }
  destruct (Hnear c k ltac:(lia) Hk) as [A1 B1].
  destruct (Hnear c' k' ltac:(lia) Hk') as [A2 B2].
  split; [split; [lia |] | lia].
  destruct (Nat.eq_dec c c') as [-> | Hne];
    [assert (k = k') by congruence; lia |].
  assert (2 * Z.of_nat n * (k' - k) > - (2 * Z.of_nat n)) as Hd by lia.
  nia.
Qed.

Section RunProgress.

Variable load : File -> Loaded.
Variable toDataURL : ImageData -> string.

Abbreviation item := (item load toDataURL).
Abbreviation step := (step load toDataURL).
Abbreviation run := (run load toDataURL).

Lemma resume_count (r : Run) : processedCount (resume r) = processedCount r.
Proof.
  unfold resume. destruct (returned r); [reflexivity |].
  destruct (Promise_all (processingPromises r)); reflexivity.
Qed.

Lemma step_count_le (r : Run) (j : nat) :
  (processedCount r <= processedCount (step r j))%nat.
Proof.
  unfold step. rewrite resume_count.
  destruct (processingPromises r !! j) as [[| v |] |] eqn:Hj;
    try (rewrite item_settled by congruence; lia).
  destruct (input r !! j) as [file |] eqn:Hf.
  - destruct (item_pending load toDataURL r j file Hj Hf)
      as (_ & _ & _ & _ & _ & _ & -> & _). lia.
  - unfold item. rewrite Hj, Hf. lia.
Qed.

(** In a run taken alone on its page, with no item of an earlier invocation
    still loading, the progress value of the page is a percentage between 0
    and 100 and no event of the run lowers it (batches of up to 2048
    files). *)
Lemma run_progress_monotone (p : Page) (order : list nat) (j : nat) :
  files p <> [] -> (length (files p) <= 2048)%nat ->
  exists k k',
    processingProgress (page (run p order)) = Some k /\
    processingProgress (page (run p (order ++ [j]))) = Some k' /\
    0 <= k <= k' /\ k' <= 100.
Proof.
  intros Hne Hn.
  pose proof (Inv_run load toDataURL p order Hne) as I.
  pose proof (Inv_run load toDataURL p (order ++ [j]) Hne) as I'.
  pose proof (inv_progress _ _ _ _ I) as Hp.
  pose proof (inv_progress _ _ _ _ I') as Hp'.
  pose proof (proj2 (run_count load toDataURL p (order ++ [j]))) as Hle'.
  assert (processedCount (run p order)
          <= processedCount (run p (order ++ [j])))%nat as Hmono
    by (rewrite run_snoc; apply step_count_le).
  set (c := processedCount (run p order)) in *.
  set (c' := processedCount (run p (order ++ [j]))) in *.
  assert (forall d, (d <= length (files p))%nat ->
            exists v, progress_of d (length (files p)) = Some v) as Hex.
  { intros [| d'] Hd; [exists 0; reflexivity |].
    destruct (progress_nearest (Z.of_nat (S d'))
                (Z.of_nat (length (files p))) ltac:(lia) ltac:(lia))
      as (v & Hv & _).
    exists v. exact Hv. }
  destruct (Hex c ltac:(lia)) as [k Hk].
  destruct (Hex c' Hle') as [k' Hk'].
  exists k, k'. rewrite Hp, Hp'.
  split; [exact Hk |]. split; [exact Hk' |].
  apply (progress_of_mono c c' (length (files p))); try assumption. lia.
Qed.






End RunProgress.

(** ** The handlers of the page *)

Lemma filter_from_delete {A : Type} (l : list A) (o r : nat) :
  filter_from (fun _ index => negb (index =? r)%nat) o l
  = if (r <? o)%nat then l else delete (r - o)%nat l.
Proof.
  revert o. induction l as [| x l IH]; intros o.
  - destruct (r <? o)%nat; reflexivity.
  - cbn [filter_from]. rewrite IH.
    destruct (Nat.eqb_spec o r) as [-> | Hne]; cbn [negb].
    + rewrite Nat.sub_diag.
      replace (r <? S r)%nat with true by (symmetry; apply Nat.ltb_lt; lia).
      replace (r <? r)%nat with false by (symmetry; apply Nat.ltb_ge; lia).
      reflexivity.
    + destruct (Nat.ltb_spec r o) as [Hlt | Hge].
      * replace (r <? S o)%nat with true by (symmetry; apply Nat.ltb_lt; lia).
        reflexivity.
      * replace (r <? S o)%nat with false
          by (symmetry; apply Nat.ltb_ge; lia).
        replace (r - o)%nat with (S (r - S o)) by lia. reflexivity.
Qed.

(** X14: removing a file discards exactly the file at that index and keeps
    the others in order; an index outside the list changes nothing; the
    results on display, the processing flag and the progress stay as they
    are. *)
Theorem handleRemoveFile_removes_one (i : nat) (p : Page) :
  files (handleRemoveFile i p) = take i (files p) ++ drop (S i) (files p) /\
  (forall j, files (handleRemoveFile i p) !! j
             = files p !! (if (j <? i)%nat then j else S j)) /\
  ((length (files p) <= i)%nat -> handleRemoveFile i p = p) /\
  processedImages (handleRemoveFile i p) = processedImages p /\
  isProcessing (handleRemoveFile i p) = isProcessing p /\
  processingProgress (handleRemoveFile i p) = processingProgress p.
Proof.
  assert (files (handleRemoveFile i p) = delete i (files p)) as E.
  { unfold handleRemoveFile, Array_filter. cbn [files].
    rewrite filter_from_delete. cbn. rewrite Nat.sub_0_r. reflexivity. }
  split; [rewrite E; apply delete_take_drop |].
  split; [| split; [| repeat split]].
  - intros j. rewrite E. destruct (Nat.ltb_spec j i).
    + apply list_lookup_delete_lt. assumption.
    + apply list_lookup_delete_ge. assumption.
  - intros Hi. destruct p as [fs imgs busy prog].
    unfold handleRemoveFile in *. cbn [files] in *. f_equal.
    unfold Array_filter. rewrite filter_from_delete. cbn.
    rewrite Nat.sub_0_r, delete_take_drop.
    rewrite take_ge, drop_ge by lia. apply app_nil_r.
Qed.

Lemma paste_loop_spec (now : nat -> Z) (items : list DataTransferItem)
    (i : nat) (acc : list File) :
  paste_loop now i items acc
  = acc ++ pasted_images (fun k => now (i + k)%nat) items.
Proof.
  revert i acc. induction items as [| item items IH]; intros i acc.
  - cbn. symmetry. apply app_nil_r.
  - cbn [paste_loop]. rewrite IH. unfold pasted_images.
    rewrite imap_cons. cbn [omap]. rewrite Nat.add_0_r.
    assert (forall (l : list DataTransferItem),
              imap ((fun k item =>
                       if String.prefix "image/" (item_type item)
                       then pasted_file (now (i + k)%nat) <$> getAsFile item
                       else None) ∘ S) l
              = imap (fun k item =>
                        if String.prefix "image/" (item_type item)
                        then pasted_file (now (S i + k)%nat) <$> getAsFile item
                        else None) l) as ->.
    { intros l. apply imap_ext. intros k x _. cbn.
      replace (i + S k)%nat with (S (i + k)) by lia. reflexivity. }
    destruct (String.prefix "image/" (item_type item));
      [destruct (getAsFile item) as [blob |] |]; cbn;
      rewrite <- ?app_assoc; reflexivity.
Qed.

(** X15: a paste appends one file for each image item of the clipboard that
    yields a file, in clipboard order, after the files already listed, and
    then clears the results; a paste without such an item, or without
    clipboard data, leaves the page as it is, results included. *)
Theorem handlePaste_adds_images_only
    (items : list DataTransferItem) (now : nat -> Z) (p : Page) :
  files (handlePaste (Some items) now p)
  = files p ++ pasted_images now items /\
  (pasted_images now items = [] -> handlePaste (Some items) now p = p) /\
  (pasted_images now items <> [] ->
   processedImages (handlePaste (Some items) now p) = []) /\
  isProcessing (handlePaste (Some items) now p) = isProcessing p /\
  processingProgress (handlePaste (Some items) now p) = processingProgress p /\
  handlePaste None now p = p.
Proof.
  unfold handlePaste. cbv zeta. rewrite paste_loop_spec. cbn [app].
  change (fun k => now (0 + k)%nat) with now.
  destruct (pasted_images now items) as [| f fs]; cbn.
  - rewrite app_nil_r. repeat split; congruence.
  - repeat split; congruence.
Qed.

(** A screenshot and a text snippet on the clipboard: only the screenshot
    becomes a file, named after the clock and the subtype. *)
Lemma handlePaste_example :
  files (handlePaste
           (Some [ {| item_type := "text/plain"; getAsFile := None |};
                   {| item_type := "image/png";
                      getAsFile := Some {| blob_type := "image/png";
                                           blob_bytes := [1; 2; 3; 4] |} |} ])
           (fun _ => 1700000000123) (demo_page [good]))
  = [good; {| file_name := "pasted-image-1700000000123.png";
              file_bytes := [1; 2; 3; 4] |}].
Proof. vm_compute. reflexivity. Qed.

(** ** Downloading the results *)

Lemma omap_all_some {A B : Type} (f : A -> option B) (g : A -> B)
    (l : list A) :
  (forall x, x ∈ l -> f x = Some (g x)) -> omap f l = g <$> l.
Proof.
  induction l as [| x l IH]; intros H; [reflexivity |].
  change (omap f (x :: l))
    with (match f x with Some y => y :: omap f l | None => omap f l end).
  rewrite (H x) by apply list_elem_of_here.
  rewrite IH; [reflexivity |].
  intros y Hy. apply H. apply list_elem_of_further. exact Hy.
Qed.

Section Downloads.

Variable load : File -> Loaded.
Variable toDataURL : ImageData -> string.

(** X16: "Download All" after a batch in which every file decoded saves one
    file per input file, in input order, 100 ms apart, each named
    [pinku_] followed by the name of its input and holding the PNG of its
    filtered pixels: what [handleDownloadSingle] saves for that result. *)
Theorem download_all_after_batch
    (p : Page) (order : list nat) (i : nat) (f : File) (img : ImageData) :
  (forall g, g ∈ files p -> exists im, load g = LoadOk im true) ->
  complete (length (files p)) order ->
  files p !! i = Some f -> load f = LoadOk img true ->
  length (handleDownloadAll (page (run load toDataURL p order)))
  = length (files p) /\
  handleDownloadAll (page (run load toDataURL p order)) !! i
  = Some ((i * 100)%nat,
          handleDownloadSingle (toDataURL (filtering img))
                               ("pinku_" +:+ file_name f)).
Proof.
  intros Hall Hc Hf Hload.
  assert (files p <> []) as Hne by (intros E; rewrite E in Hf; discriminate).
  assert (forall g, g ∈ files p -> fails load g = false) as Hok.
  { intros g Hg. destruct (Hall g Hg) as [im Him]. unfold fails.
    rewrite Him. reflexivity. }
  unfold handleDownloadAll.
  rewrite (run_fulfilled load toDataURL p order Hne Hc Hok).
  rewrite (omap_all_some (result_of load toDataURL)
             (fun g => match load g with
                       | LoadOk im _ => entry toDataURL g im
                       | LoadError => entry toDataURL g img
                       end)).
  2: { intros g Hg. destruct (Hall g Hg) as [im Him]. unfold result_of.
       rewrite Him. reflexivity. }
  split.
  - rewrite length_imap, length_fmap. reflexivity.
  - rewrite list_lookup_imap, list_lookup_fmap, Hf. cbn.
    rewrite Hload. reflexivity.
Qed.

End Downloads.

Lemma download_all_after_batch_witness :
  handleDownloadAll
    (page (run demo_load demo_toDataURL (demo_page [good; good2])
               [1; 0]%nat)) !! 1%nat
  = Some (100%nat,
          {| href := "data:image/png;other"; download := "pinku_good2.png" |}).
Proof.
  refine (proj2 (download_all_after_batch demo_load demo_toDataURL
                   (demo_page [good; good2]) [1; 0]%nat 1 good2
                   {| width := 1; height := 1; data := [0; 0; 0; 255] |}
                   _ _ eq_refl eq_refl)).
  - intros g Hg. cbn in Hg. apply elem_of_cons in Hg as [-> | Hg];
      [eexists; reflexivity |].
    apply list_elem_of_singleton in Hg as ->. eexists; reflexivity.
  - intros k Hk. destruct k as [| [| k]]; [| | cbn in Hk; lia];
      repeat constructor.
Defined.

(** ** The page across user actions and runs *)

Lemma same_closure_refl (r : Run) : same_closure r r.
Proof. repeat split. Qed.

Lemma same_closure_with_page (r : Run) (p : Page) :
  same_closure (with_page r p) r.
Proof. repeat split. Qed.

Lemma same_closure_trans (r1 r2 r3 : Run) :
  same_closure r1 r2 -> same_closure r2 r3 -> same_closure r1 r3.
Proof.
  intros (A1 & A2 & A3 & A4 & A5) (B1 & B2 & B3 & B4 & B5).
  repeat split; congruence.
Qed.

Lemma Promise_all_fulfilled_settled {A : Type} (ps : list (promise A))
    (vs : list A) (k : nat) :
  Promise_all ps = Fulfilled vs -> ps !! k <> Some Pending.
Proof.
  intros H E. apply Promise_all_fulfilled in H. subst ps.
  rewrite list_lookup_fmap in E. destruct (vs !! k); discriminate.
Qed.

Section SessionProps.

Variable load : File -> Loaded.
Variable toDataURL : ImageData -> string.

Abbreviation item := (item load toDataURL).
Abbreviation step := (step load toDataURL).
Abbreviation run := (run load toDataURL).
Abbreviation act := (act load toDataURL).
Abbreviation session := (session load toDataURL).
Abbreviation AppInv := (AppInv load toDataURL).

Lemma same_closure_item (r1 r2 : Run) (k : nat) :
  same_closure r1 r2 -> same_closure (item k r1) (item k r2).
Proof.
  intros (H1 & H2 & H3 & H4 & H5). unfold item. rewrite H1, H3.
  destruct (processingPromises r2 !! k) as [[| v |] |];
    try (repeat split; assumption).
  destruct (input r2 !! k) as [file |]; [| repeat split; assumption].
  destruct (load file) as [| img [|]]; repeat split; cbn; congruence.
Qed.

Lemma same_closure_resume (r1 r2 : Run) :
  same_closure r1 r2 -> same_closure (resume r1) (resume r2).
Proof.
  intros (H1 & H2 & H3 & H4 & H5). unfold resume. rewrite H3, H4.
  destruct (returned r2) eqn:E; [repeat split; congruence |].
  destruct (Promise_all (processingPromises r2));
    repeat split; cbn; congruence.
Qed.

Lemma same_closure_step (r1 r2 : Run) (k : nat) :
  same_closure r1 r2 -> same_closure (step r1 k) (step r2 k).
Proof. intros H. apply same_closure_resume, same_closure_item, H. Qed.

Lemma item_page (r : Run) (k : nat) :
  returned (item k r) = returned r /\
  files (page (item k r)) = files (page r) /\
  processedImages (page (item k r)) = processedImages (page r) /\
  isProcessing (page (item k r)) = isProcessing (page r).
Proof.
  unfold item.
  destruct (processingPromises r !! k) as [[| v |] |];
    try (repeat split; reflexivity).
  destruct (input r !! k) as [file |]; [| repeat split; reflexivity].
  destruct (load file) as [| img [|]]; repeat split; reflexivity.
Qed.

(** What one event of a run does to the results and the flag of the page. *)
Lemma step_effect (r : Run) (k : nat) :
  files (page (step r k)) = files (page r) /\
  (returned r = true ->
   returned (step r k) = true /\
   processedImages (page (step r k)) = processedImages (page r) /\
   isProcessing (page (step r k)) = isProcessing (page r) /\
   forall res,
     Promise_all (processingPromises r) = Fulfilled res ->
     Promise_all (processingPromises (step r k)) = Fulfilled res) /\
  (returned r = false ->
   (returned (step r k) = false /\
    processedImages (page (step r k)) = processedImages (page r) /\
    isProcessing (page (step r k)) = isProcessing (page r)) \/
   (returned (step r k) = true /\
    isProcessing (page (step r k)) = false /\
    (processedImages (page (step r k)) = processedImages (page r) \/
     exists res,
       Promise_all (processingPromises (step r k)) = Fulfilled res /\
       processedImages (page (step r k)) = omap id res))).
Proof.
  destruct (item_page r k) as (Hret & Hfiles & Himgs & Hbusy).
  unfold step. set (ri := item k r) in *.
  split; [| split].
  - unfold resume. destruct (returned ri); [exact Hfiles |].
    destruct (Promise_all (processingPromises ri)); cbn; exact Hfiles.
  - intros E. unfold resume. rewrite Hret, E.
    split; [congruence |]. split; [exact Himgs |]. split; [exact Hbusy |].
    intros res Hres. unfold ri.
    rewrite item_settled; [exact Hres |].
    eapply Promise_all_fulfilled_settled, Hres.
  - intros E. unfold resume. rewrite Hret, E.
    destruct (Promise_all (processingPromises ri)) as [| res |] eqn:EP.
    + left. rewrite Hret. repeat split; assumption.
    + right. cbn. split; [reflexivity |]. split; [reflexivity |].
      right. exists res. split; [exact EP | reflexivity].
    + right. cbn. split; [reflexivity |]. split; [reflexivity |].
      left. exact Himgs.
Qed.

Lemma AppInv_mounted : AppInv mounted.
Proof.
  constructor; cbn.
  - intros j r H. discriminate.
  - split; [discriminate |]. intros (j & r & H & _). discriminate.
  - reflexivity.
  - left. reflexivity.
  - intros j r H. discriminate.
Qed.

(** A handler that leaves the flag alone and keeps or clears the results. *)
Lemma AppInv_user (a : App) (p' : Page) :
  AppInv a ->
  isProcessing p' = isProcessing (view a) ->
  processedImages p' = processedImages (view a) \/ processedImages p' = [] ->
  AppInv {| view := p'; calls := calls a |}.
Proof.
  intros [Iold Ibusy Iquiet Ires Icalls] Hb Hi. constructor; cbn.
  - exact Iold.
  - rewrite Hb. exact Ibusy.
  - rewrite Hb. intros E. destruct Hi as [-> | ->]; [auto | reflexivity].
  - destruct Hi as [-> | ->]; [exact Ires | left; reflexivity].
  - exact Icalls.
Qed.

Lemma handlePaste_effect (cd : option (list DataTransferItem))
    (now : nat -> Z) (p : Page) :
  isProcessing (handlePaste cd now p) = isProcessing p /\
  (processedImages (handlePaste cd now p) = processedImages p \/
   processedImages (handlePaste cd now p) = []).
Proof.
  unfold handlePaste. destruct cd as [items |]; [| auto].
  cbv zeta. destruct (0 <? length (paste_loop now 0 items []))%nat; cbn; auto.
Qed.

Lemma AppInv_convert (a : App) :
  AppInv a -> convert_disabled (view a) = false ->
  AppInv {| view := page (handleConvert (view a));
            calls := calls a ++ [handleConvert (view a)] |}.
Proof.
  intros [Iold Ibusy Iquiet Ires Icalls] Hd.
  unfold convert_disabled in Hd. apply orb_false_elim in Hd as [Hlen Hb].
  apply Nat.eqb_neq in Hlen.
  assert (files (view a) <> []) as Hne
    by (intros E; rewrite E in Hlen; apply Hlen; reflexivity).
  assert (forall j r, calls a !! j = Some r -> returned r = true) as Hall.
  { intros j r Hj. destruct (returned r) eqn:E; [reflexivity |].
    assert (isProcessing (view a) = true) as Hc
      by (apply Ibusy; exists j, r; split; assumption).
    congruence. }
  assert (returned (handleConvert (view a)) = false /\
          isProcessing (page (handleConvert (view a))) = true /\
          processedImages (page (handleConvert (view a))) = [])
    as (Hret & Hbusy & Himgs).
  { unfold handleConvert. destruct (files (view a)); [congruence |].
    repeat split. }
  constructor; cbn [view calls].
  - intros j r Hj E. rewrite length_app. cbn.
    destruct (Nat.lt_ge_cases j (length (calls a))) as [Hlt | Hge].
    + rewrite lookup_app_l in Hj by exact Hlt.
      rewrite (Hall j r Hj) in E. discriminate.
    + apply lookup_lt_Some in Hj. rewrite length_app in Hj. cbn in Hj. lia.
  - split; [| intros _; exact Hbusy].
    intros _. exists (length (calls a)), (handleConvert (view a)).
    split; [| exact Hret].
    rewrite lookup_app_r by lia. rewrite Nat.sub_diag. reflexivity.
  - intros _. exact Himgs.
  - left. exact Himgs.
  - intros j r Hj.
    destruct (Nat.lt_ge_cases j (length (calls a))) as [Hlt | Hge].
    + rewrite lookup_app_l in Hj by exact Hlt. exact (Icalls j r Hj).
    + rewrite lookup_app_r in Hj by exact Hge.
      destruct (j - length (calls a))%nat; [| discriminate].
      injection Hj as <-. exists (view a), [].
      split; [exact Hne | apply same_closure_refl].
Qed.

Lemma AppInv_event (a : App) (j k : nat) (r : Run) :
  AppInv a -> calls a !! j = Some r ->
  AppInv {| view := page (step (with_page r (view a)) k);
            calls := <[j := step (with_page r (view a)) k]> (calls a) |}.
Proof.
  intros [Iold Ibusy Iquiet Ires Icalls] Hj.
  destruct (step_effect (with_page r (view a)) k) as (_ & Hret & Hrun).
  assert (exists p order,
            files p <> [] /\
            same_closure (step (with_page r (view a)) k) (run p order))
    as Hclosure.
  { destruct (Icalls j r Hj) as (p & order & Hne & Hc).
    exists p, (order ++ [k]). split; [exact Hne |].
    rewrite run_snoc. apply same_closure_step.
    eapply same_closure_trans; [apply same_closure_with_page | exact Hc]. }
  set (r' := step (with_page r (view a)) k) in *.
  change (returned (with_page r (view a))) with (returned r) in *.
  change (page (with_page r (view a))) with (view a) in *.
  change (processingPromises (with_page r (view a)))
    with (processingPromises r) in *.
  assert (j < length (calls a))%nat as Hjlt by (eapply lookup_lt_Some, Hj).
  assert (<[j := r']> (calls a) !! j = Some r') as Hnew
    by (apply list_lookup_insert_eq; exact Hjlt).
  assert (forall i x, <[j := r']> (calls a) !! i = Some x ->
            (i = j /\ x = r') \/ (i <> j /\ calls a !! i = Some x)) as Hlook.
  { intros i x Hi. destruct (Nat.eq_dec i j) as [-> | Hne].
    - left. split; [reflexivity | congruence].
    - right. split; [exact Hne |].
      rewrite list_lookup_insert_ne in Hi by congruence. exact Hi. }
  destruct (returned r) eqn:E.
  - destruct (Hret eq_refl) as (Hr' & Himgs & Hb & Hful).
    constructor; cbn [view calls]; rewrite ?length_insert.
    + intros i x Hi Ex. destruct (Hlook i x Hi) as [[-> ->] | [Hne Hi']];
        [congruence | eauto].
    + rewrite Hb. split.
      * intros Hbusy. apply Ibusy in Hbusy as (i & x & Hi & Ex).
        exists i, x. split; [| exact Ex].
        rewrite list_lookup_insert_ne; [exact Hi |].
        intros ->. congruence.
      * intros (i & x & Hi & Ex). apply Ibusy.
        destruct (Hlook i x Hi) as [[-> ->] | [Hne Hi']]; [congruence |].
        exists i, x. split; assumption.
    + rewrite Hb, Himgs. exact Iquiet.
    + rewrite Himgs.
      destruct Ires as [Hnil | (i & x & res & Hi & Hlast & Ex & Hres & Hshow)];
        [left; exact Hnil |].
      right. destruct (Nat.eq_dec i j) as [-> | Hne].
      * assert (x = r) by congruence. subst x.
        exists j, r', res. repeat split; auto.
      * exists i, x, res. rewrite list_lookup_insert_ne by congruence.
        repeat split; auto.
    + intros i x Hi. destruct (Hlook i x Hi) as [[-> ->] | [Hne Hi']];
        [exact Hclosure | eauto].
  - pose proof (Iold j r Hj E) as Hlast.
    assert (isProcessing (view a) = true) as Hbusy
      by (apply Ibusy; exists j, r; split; assumption).
    pose proof (Iquiet Hbusy) as Hnil.
    destruct (Hrun eq_refl) as [(Hr' & Himgs & Hb) | (Hr' & Hb & Hshow)].
    + constructor; cbn [view calls]; rewrite ?length_insert.
      * intros i x Hi Ex. destruct (Hlook i x Hi) as [[-> ->] | [Hne Hi']];
          [exact Hlast | eauto].
      * rewrite Hb. split; [| intros _; exact Hbusy].
        intros _. exists j, r'. split; assumption.
      * intros _. rewrite Himgs. exact Hnil.
      * left. rewrite Himgs. exact Hnil.
      * intros i x Hi. destruct (Hlook i x Hi) as [[-> ->] | [Hne Hi']];
          [exact Hclosure | eauto].
    + constructor; cbn [view calls]; rewrite ?length_insert.
      * intros i x Hi Ex. destruct (Hlook i x Hi) as [[-> ->] | [Hne Hi']];
          [congruence |].
        pose proof (Iold i x Hi' Ex). lia.
      * rewrite Hb. split; [discriminate |].
        intros (i & x & Hi & Ex).
        destruct (Hlook i x Hi) as [[-> ->] | [Hne Hi']]; [congruence |].
        pose proof (Iold i x Hi' Ex). lia.
      * rewrite Hb. discriminate.
      * destruct Hshow as [Hsame | (res & Hres & Hshow)].
        -- left. rewrite Hsame. exact Hnil.
        -- right. exists j, r', res. repeat split; auto.
      * intros i x Hi. destruct (Hlook i x Hi) as [[-> ->] | [Hne Hi']];
          [exact Hclosure | eauto].
Qed.

Lemma AppInv_act (a : App) (e : Action) : AppInv a -> AppInv (act a e).
Proof.
  intros I. destruct e as [fs | cd now | i | | | j k]; unfold act.
  - apply AppInv_user; [exact I | |];
      destruct fs; cbn; auto.
  - destruct (handlePaste_effect cd now (view a)) as [Hb Hi].
    apply AppInv_user; assumption.
  - apply AppInv_user; [exact I | reflexivity | left; reflexivity].
  - destruct (reset_shown (view a)); [| exact I].
    apply AppInv_user; [exact I | reflexivity | right; reflexivity].
  - destruct (convert_disabled (view a)) eqn:Hd; [exact I |].
    apply AppInv_convert; assumption.
  - destruct (calls a !! j) as [r |] eqn:Hj; [| exact I].
    apply AppInv_event; assumption.
Qed.

Lemma session_snoc (es : list Action) (e : Action) :
  session (es ++ [e]) = act (session es) e.
Proof. unfold session. apply foldl_snoc. Qed.

Lemma AppInv_session (es : list Action) : AppInv (session es).
Proof.
  induction es as [| e es IH] using rev_ind.
  - apply AppInv_mounted.
  - rewrite session_snoc. apply AppInv_act, IH.
Qed.

End SessionProps.

Section SessionTheorems.

Variable load : File -> Loaded.
Variable toDataURL : ImageData -> string.

Abbreviation run := (run load toDataURL).
Abbreviation act := (act load toDataURL).
Abbreviation session := (session load toDataURL).

(** X17: the page runs one batch at a time: after any list of actions at
    most the latest invocation of [handleConvert] has not returned, the
    processing flag is set exactly while one has not, and a click on the
    convert button then starts nothing. *)
Theorem one_batch_at_a_time (es : list Action) :
  (forall j r, calls (session es) !! j = Some r -> returned r = false ->
     S j = length (calls (session es))) /\
  (isProcessing (view (session es)) = true <->
   exists j r, calls (session es) !! j = Some r /\ returned r = false) /\
  (isProcessing (view (session es)) = true ->
   act (session es) ClickConvert = session es).
Proof.
  pose proof (AppInv_session load toDataURL es) as I.
  split; [exact (ai_older _ _ _ I) |]. split; [exact (ai_busy _ _ _ I) |].
  intros Hb. unfold act, convert_disabled. rewrite Hb, orb_true_r.
  reflexivity.
Qed.

(** X18: the page never shows results while it is processing: the progress
    bar is rendered exactly while the flag is set, never together with the
    results, and whenever results are rendered so is "Download All". *)
Theorem busy_page_shows_no_results (es : list Action) :
  (isProcessing (view (session es)) = true ->
   processedImages (view (session es)) = []) /\
  progress_bar_shown (view (session es)) = isProcessing (view (session es)) /\
  (results_shown (view (session es)) = true ->
   isProcessing (view (session es)) = false) /\
  download_all_shown (view (session es)) = results_shown (view (session es)).
Proof.
  pose proof (ai_quiet _ _ _ (AppInv_session load toDataURL es)) as Hq.
  split; [exact Hq |].
  unfold download_all_shown, results_shown, progress_bar_shown, panel_shown.
  destruct (isProcessing (view (session es))) eqn:Hb.
  - rewrite (Hq eq_refl). repeat split. cbn. discriminate.
  - repeat split; cbn; rewrite ?andb_false_r, ?andb_true_r; reflexivity.
Qed.

(** X19: the results on display are always those of the latest invocation:
    it has returned, every file it captured decoded, and the list holds the
    entries of those files in their order, whatever has happened to the
    file list since. *)
Theorem displayed_results_are_latest_batch (es : list Action) :
  processedImages (view (session es)) = [] \/
  exists j r,
    calls (session es) !! j = Some r /\
    S j = length (calls (session es)) /\
    returned r = true /\
    (forall f, f ∈ input r -> fails load f = false) /\
    processedImages (view (session es))
    = omap (result_of load toDataURL) (input r).
Proof.
  pose proof (AppInv_session load toDataURL es) as I.
  destruct (ai_results _ _ _ I)
    as [Hnil | (j & r & res & Hj & Hlast & Hret & Hres & Hshow)];
    [left; exact Hnil |].
  right. exists j, r. split; [exact Hj |]. split; [exact Hlast |].
  split; [exact Hret |].
  destruct (ai_calls _ _ _ I j r Hj) as (p & order & Hne & Hc).
  destruct Hc as (Hin & _ & Hps & _ & _).
  pose proof (Inv_run load toDataURL p order Hne) as Ir.
  pose proof (inv_promises _ _ _ _ Ir) as HF.
  rewrite (inv_input _ _ _ _ Ir) in Hin.
  apply Promise_all_fulfilled in Hres. rewrite <- Hps, Hres in HF.
  rewrite Hin, Hshow. clear - HF.
  assert (Forall2 (fun f v => fails load f = false /\
                              v = result_of load toDataURL f)
                  (files p) res) as HF'.
  { apply Forall2_fmap_r in HF. eapply Forall2_impl; [exact HF |].
    intros f v [Hv | Hv]; [discriminate |].
    unfold outcome in Hv. unfold fails, result_of.
    destruct (load f) as [| img [|]]; [discriminate | |];
      injection Hv as ->; split; reflexivity. }
  clear HF. induction HF' as [| f v fs vs [Hf ->] _ [IH1 IH2]].
  - split; [intros f Hf; inversion Hf | reflexivity].
  - split.
    + intros g Hg. apply elem_of_cons in Hg as [-> | Hg]; [exact Hf |].
      apply IH1, Hg.
    + change (omap id (result_of load toDataURL f :: vs))
        with (match result_of load toDataURL f with
              | Some y => y :: omap id vs
              | None => omap id vs
              end).
      change (omap (result_of load toDataURL) (f :: fs))
        with (match result_of load toDataURL f with
              | Some y => y :: omap (result_of load toDataURL) fs
              | None => omap (result_of load toDataURL) fs
              end).
      rewrite IH2. reflexivity.
Qed.

(** X20: whatever the user does meanwhile and whatever other invocations do,
    the variables of the closure of every invocation of [handleConvert] made
    on the page (its captured files, its counter, its item promises, whether
    it has returned) and the calls it has made are those of a batch run, on
    its own, of a non-empty batch.  The page is not among them: it is shared
    between the invocations. *)
Theorem every_call_is_a_run (es : list Action) (j : nat) (r : Run) :
  calls (session es) !! j = Some r ->
  exists p order,
    files p <> [] /\ input r = files p /\
    same_closure r (run p order).
Proof.
  intros Hj.
  destruct (ai_calls _ _ _ (AppInv_session load toDataURL es) j r Hj)
    as (p & order & Hne & Hc).
  exists p, order. split; [exact Hne |]. split; [| exact Hc].
  destruct Hc as (Hin & _). rewrite Hin.
  apply (inv_input _ _ _ _ (Inv_run load toDataURL p order Hne)).
Qed.


End SessionTheorems.

(** A session in which a batch fails at once, the user removes the failing
    file and converts again, and an image of the first batch loads after
    the second batch has finished one item. *)
Lemma every_call_is_a_run_witness :
  let es := [SelectFiles (Some [bad; good; good2]); ClickConvert;
             ItemEvent 0 0; ClickRemove 0; ClickConvert; ItemEvent 1 0;
             ItemEvent 0 1] in
  exists r p order,
    calls (session demo_load demo_toDataURL es) !! 0%nat = Some r /\
    processedCount r = 1%nat /\ returned r = true /\
    files p <> [] /\ input r = files p /\
    same_closure r (run demo_load demo_toDataURL p order).
Proof.
  intros es.
  assert (calls (session demo_load demo_toDataURL es) !! 0%nat
          = Some (default (handleConvert (demo_page []))
                          (calls (session demo_load demo_toDataURL es)
                           !! 0%nat))) as H
    by (vm_compute; reflexivity).
  destruct (every_call_is_a_run demo_load demo_toDataURL es 0 _ H)
    as (p & order & Hne & Hin & Hc).
  eexists _, p, order. split; [exact H |].
  split; [vm_compute; reflexivity |]. split; [vm_compute; reflexivity |].
  split; [exact Hne |]. split; [exact Hin | exact Hc].
Defined.


(** "Clear All" during a run does not cancel it: the list of files is
    emptied, the run goes on, and its results are shown all the same. *)
Lemma reset_during_run_example :
  let a := session demo_load demo_toDataURL
             [SelectFiles (Some [good; good2]); ClickConvert;
              ItemEvent 0 1; ClickReset; ItemEvent 0 0] in
  files (view a) = [] /\ isProcessing (view a) = false /\
  name <$> processedImages (view a) = ["pinku_good.png"; "pinku_good2.png"].
Proof. vm_compute. repeat split; reflexivity. Qed.

(** After a failed batch a leftover item of it still writes the progress of
    the page: here the next batch has finished one of its two items, the
    page shows 50, and the leftover item of the failed batch of three sets
    it to 33 while the page is processing. *)
Lemma stale_item_example :
  let es := [SelectFiles (Some [bad; good; good2]); ClickConvert;
             ItemEvent 0 0; ClickRemove 0; ClickConvert; ItemEvent 1 0] in
  let a := session demo_load demo_toDataURL es in
  let a' := session demo_load demo_toDataURL (es ++ [ItemEvent 0 1]) in
  isProcessing (view a) = true /\ processingProgress (view a) = Some 50 /\
  isProcessing (view a') = true /\ processingProgress (view a') = Some 33 /\
  (processedCount <$> calls a') = [1; 1]%nat.
Proof. vm_compute. repeat split; reflexivity. Qed.

(** ** The names of pasted files *)

Lemma append_cancel_l (p x y : string) : p +:+ x = p +:+ y -> x = y.
Proof.
  induction p as [| c p IH]; cbn; intros H; [exact H |].
  injection H as H. apply IH, H.
Qed.

Lemma split_at_dot (s1 s2 t1 t2 : string) :
  no_dot s1 -> no_dot s2 ->
  s1 +:+ String "."%char t1 = s2 +:+ String "."%char t2 ->
  s1 = s2 /\ t1 = t2.
Proof.
  revert s2. induction s1 as [| c1 s1 IH]; intros [| c2 s2] H1 H2 E; cbn in *.
  - injection E as E. split; [reflexivity | exact E].
  - injection E as Ec _. destruct H2 as [H2 _]. congruence.
  - injection E as Ec _. destruct H1 as [H1 _]. congruence.
  - injection E as Ec E. destruct H1 as [_ H1]. destruct H2 as [_ H2].
    destruct (IH s2 H1 H2 E) as [-> ->]. subst c2. split; reflexivity.
Qed.

Lemma string_of_uint_no_dot (d : Decimal.uint) :
  no_dot (NilEmpty.string_of_uint d).
Proof.
  induction d; cbn; (exact I || (split; [discriminate | assumption])).
Qed.

Lemma digits_no_dot (z : Z) : no_dot (digits z).
Proof.
  unfold digits, NilZero.string_of_int, NilZero.string_of_uint.
  destruct (Z.to_int z) as [d | d]; destruct d; cbn;
    repeat (split; [discriminate |]);
    try exact I; apply string_of_uint_no_dot.
Qed.

Lemma to_int_nonnil (z : Z) :
  Z.to_int z <> Decimal.Pos Decimal.Nil /\
  Z.to_int z <> Decimal.Neg Decimal.Nil.
Proof.
  destruct z as [| p | p]; cbn; split; try discriminate;
    intros H; injection H as H;
    exact (DecimalPos.Unsigned.to_uint_nonnil p H).
Qed.

Lemma digits_inj (z1 z2 : Z) : digits z1 = digits z2 -> z1 = z2.
Proof.
  unfold digits. intros H.
  apply (f_equal NilZero.int_of_string) in H.
  destruct (to_int_nonnil z1) as [A1 B1].
  destruct (to_int_nonnil z2) as [A2 B2].
  rewrite !NilZero.isi in H by assumption.
  injection H as H. apply (f_equal Z.of_int) in H.
  rewrite !DecimalZ.of_to in H. exact H.
Qed.

(** X21: the name given to a pasted image is unique only up to the clock: two
    pasted files have the same name exactly when their clock readings are
    equal and the types of their blobs have the same second piece; two
    images of one subtype handled within the same millisecond, as in one
    paste, share their name. *)
Theorem pasted_names_equal_iff (now1 now2 : Z) (blob1 blob2 : Blob) :
  file_name (pasted_file now1 blob1) = file_name (pasted_file now2 blob2)
  <-> now1 = now2 /\ pasted_extension blob1 = pasted_extension blob2.
Proof.
  unfold pasted_file, pasted_extension. cbn [file_name]. split.
  - intros H. apply append_cancel_l in H.
    change ("." +:+ ?x) with (String "."%char x) in H.
    apply split_at_dot in H as [Hd He]; try apply digits_no_dot.
    split; [apply digits_inj, Hd | exact He].
  - intros [-> ->]. reflexivity.
Qed.

(** Two screenshots pasted together, the clock standing still: the same
    name twice. *)
Lemma pasted_names_example :
  file_name <$>
    pasted_images (fun _ => 1700000000123)
      [ {| item_type := "image/png";
           getAsFile := Some {| blob_type := "image/png";
                                blob_bytes := [1; 2; 3; 4] |} |};
        {| item_type := "image/png";
           getAsFile := Some {| blob_type := "image/png";
                                blob_bytes := [5; 6; 7; 8] |} |} ]
  = ["pasted-image-1700000000123.png"; "pasted-image-1700000000123.png"].
Proof. vm_compute. reflexivity. Qed.
